(** * Verification of the browser walkthrough scripts

    The repository holds two Playwright scripts:
    - [verify_features.py] (the feature walkthrough, "Procedure A"):
      [run_verification] and [main];
    - [verify_layout.py] (the layout walkthrough, "Procedure B"): [run]
      and the module-level [with] block.

    Both are straight-line sequences of calls into the automation library,
    run against a web application that the scripts do not control.  The
    development therefore has three layers:
    - strings and the page: Python's [in], the text matching of the
      selector engine, elements, locators;
    - the library: every call asks the system under test for a reply and
      turns it into "passed", "raised" or "never returns" by the timeout
      rules, inside a small state-and-exception monad;
    - the scripts, transcribed call by call, and the theorems about them. *)

From Stdlib Require Import String Ascii NArith ZArith List Bool Lia.
From stdpp Require Import base gmap strings list.
Import ListNotations.

Local Open Scope string_scope.
Local Open Scope N_scope.

(* ===================================================================== *)
(** ** Strings *)
(* ===================================================================== *)

(** Python's [needle in hay] on strings: [needle] occurs as a contiguous
    piece of [hay]. *)
Fixpoint str_in (needle hay : string) : bool :=
  String.prefix needle hay ||
  match hay with
  | EmptyString => false
  | String _ rest => str_in needle rest
  end.

(** The double quote character, for selectors that carry a quoted text. *)
Definition dquote : string := String (ascii_of_nat 34) EmptyString.

(** ASCII lower case, for tag names. *)
Definition lower (c : ascii) : ascii :=
  let n := nat_of_ascii c in
  if (Nat.leb 65 n && Nat.leb n 90)%bool then ascii_of_nat (n + 32) else c.

Fixpoint lowercase (s : string) : string :=
  match s with
  | EmptyString => EmptyString
  | String c rest => String (lower c) (lowercase rest)
  end.

(** *** Text as the selector engine sees it

    Strings hold text in UTF-8.  The engine works on characters: it
    drops the zero-width space and the soft hyphen, trims, turns every
    run of white space into one blank, and compares in lower case. *)

Definition continuation (c : ascii) : bool :=
  let b := N_of_ascii c in (128 <=? b) && (b <? 192).

Definition low6 (c : ascii) : N := N_of_ascii c - 128.

(** The characters (code points) of a UTF-8 string; a byte that starts no
    well-formed sequence counts as U+FFFD. *)
Fixpoint code_points (s : string) : list N :=
  match s with
  | EmptyString => []
  | String c0 rest =>
      let b0 := N_of_ascii c0 in
      if b0 <? 128 then b0 :: code_points rest
      else
        match rest with
        | String c1 rest1 =>
            if (192 <=? b0) && (b0 <? 224) && continuation c1
            then ((b0 - 192) * 64 + low6 c1) :: code_points rest1
            else
              match rest1 with
              | String c2 rest2 =>
                  if (224 <=? b0) && (b0 <? 240) && continuation c1 && continuation c2
                  then ((b0 - 224) * 4096 + low6 c1 * 64 + low6 c2) :: code_points rest2
                  else
                    match rest2 with
                    | String c3 rest3 =>
                        if (240 <=? b0) && (b0 <? 248) && continuation c1
                           && continuation c2 && continuation c3
                        then ((b0 - 240) * 262144 + low6 c1 * 4096 + low6 c2 * 64 + low6 c3)
                             :: code_points rest3
                        else 65533 :: code_points rest
                    | EmptyString => 65533 :: code_points rest
                    end
              | EmptyString => 65533 :: code_points rest
              end
        | EmptyString => [65533]
        end
  end.

(** White space as the engine's regular expressions have it: tab to
    carriage return, blank, no-break space, and the Unicode spaces and
    line separators. *)
Definition is_space (c : N) : bool :=
  ((9 <=? c) && (c <=? 13)) || (c =? 32) || (c =? 160) || (c =? 5760)
  || ((8192 <=? c) && (c <=? 8202)) || (c =? 8232) || (c =? 8233)
  || (c =? 8239) || (c =? 8287) || (c =? 12288) || (c =? 65279).

(** The zero-width space and the soft hyphen are dropped. *)
Definition ignorable (c : N) : bool := (c =? 8203) || (c =? 173).

(** Runs of white space become one blank; leading and trailing white space
    goes.  [pending] says that white space was seen after some text. *)
Fixpoint squeeze (started pending : bool) (l : list N) : list N :=
  match l with
  | [] => []
  | c :: rest =>
      if is_space c then squeeze started started rest
      else if pending then 32 :: c :: squeeze true false rest
      else c :: squeeze true false rest
  end.

(** Lower case of a character, as far as it matters when the text looked
    for is in ASCII, which the texts of the two scripts are: the letters
    of ASCII, and the two characters outside ASCII whose lower case has
    an ASCII letter in it (the Kelvin sign, and the dotted capital I,
    which becomes [i] and a combining dot).  Any other character is left
    as it is: in either case it is no character of an ASCII text. *)
Definition fold_case (c : N) : list N :=
  if (65 <=? c) && (c <=? 90) then [c + 32]
  else if c =? 8490 then [107]
  else if c =? 304 then [105; 775]
  else [c].

Definition normalise (s : string) : list N :=
  List.flat_map fold_case
    (squeeze false false (List.filter (fun c => negb (ignorable c)) (code_points s))).

Fixpoint starts_with (piece l : list N) : bool :=
  match piece, l with
  | [], _ => true
  | _ :: _, [] => false
  | a :: piece', b :: l' => (a =? b) && starts_with piece' l'
  end.

Fixpoint occurs (piece l : list N) : bool :=
  starts_with piece l ||
  match l with
  | [] => false
  | _ :: rest => occurs piece rest
  end.

(** The selector engine's text test ([:has-text(...)], and the [name=] of
    [get_by_role] when [exact] is not asked for): a substring test that
    ignores letter case and white-space layout.  [needle] is taken to be
    in ASCII (see [fold_case]). *)
Definition has_text (needle text : string) : bool :=
  occurs (normalise needle) (normalise text).

Fixpoint split_on (sep : ascii) (s : string) : list string :=
  match s with
  | EmptyString => [EmptyString]
  | String c rest =>
      if Ascii.eqb c sep then EmptyString :: split_on sep rest
      else match split_on sep rest with
           | piece :: pieces => String c piece :: pieces
           | [] => [String c EmptyString]
           end
  end.

(** [cut_at sep s]: the text before the first [sep], and the text after it
    when there is one. *)
Fixpoint cut_at (sep : ascii) (s : string) : string * option string :=
  match s with
  | EmptyString => (EmptyString, None)
  | String c rest =>
      if Ascii.eqb c sep then (EmptyString, Some rest)
      else let '(before, after) := cut_at sep rest in (String c before, after)
  end.

(* ===================================================================== *)
(** ** The rendered page *)
(* ===================================================================== *)

(** What the scripts can tell about an element of the page. *)
Record Element := {
  tag     : string;        (* h1, button, div, ... *)
  role    : string;        (* accessible role *)
  name    : string;        (* accessible name *)
  classes : list string;   (* the class attribute, split *)
  text    : string;        (* text content, descendants included *)
  visible : bool;          (* non-empty box, not hidden *)
  steady  : bool           (* stable, enabled and receiving pointer events *)
}.

(** One state of the page. *)
Record Snapshot := {
  url          : string;
  dom          : list Element;
  network_idle : bool
}.

Definition blank : Snapshot :=
  {| url := "about:blank"; dom := []; network_idle := true |}.

(** A compound CSS selector of the shape [tag.class.class:has-text("t")],
    every part optional. *)
Record Compound := {
  sel_tag      : option string;
  sel_classes  : list string;
  sel_has_text : option string
}.

Definition is_quote (c : ascii) : bool :=
  let n := nat_of_ascii c in (Nat.eqb n 34 || Nat.eqb n 39)%bool.

(** ["t"] or ['t'] to [t]. *)
Definition unquote (s : string) : option string :=
  match s with
  | String q rest =>
      let n := String.length rest in
      if (is_quote q && Nat.leb 1 n
          && String.eqb (String.substring (n - 1) 1 rest) (String q EmptyString))%bool
      then Some (String.substring 0 (n - 1) rest)
      else None
  | EmptyString => None
  end.

(** The one pseudo-class of the scripts: [has-text(<quoted text>)]. *)
Definition parse_pseudo (s : string) : option string :=
  let n := String.length s in
  if (String.prefix "has-text(" s && Nat.leb 10 n
      && String.eqb (String.substring (n - 1) 1 s) ")")%bool
  then unquote (String.substring 9 (n - 10) s)
  else None.

Definition parse_selector (s : string) : option Compound :=
  let '(head, pseudo) := cut_at ":" s in
  match split_on "." head with
  | [] => None
  | t :: cs =>
      if existsb (String.eqb EmptyString) cs then None
      else
        let tg := if String.eqb t EmptyString then None else Some t in
        match pseudo with
        | None =>
            if (String.eqb t EmptyString && Nat.eqb (List.length cs) 0)%bool then None
            else Some {| sel_tag := tg; sel_classes := cs; sel_has_text := None |}
        | Some p =>
            match parse_pseudo p with
            | Some txt => Some {| sel_tag := tg; sel_classes := cs; sel_has_text := Some txt |}
            | None => None
            end
        end
  end.

Definition matches (c : Compound) (e : Element) : bool :=
  (match sel_tag c with
   | Some t => String.eqb (lowercase t) (lowercase (tag e))
   | None => true
   end
   && forallb (fun k => existsb (String.eqb k) (classes e)) (sel_classes c)
   && match sel_has_text c with
      | Some t => has_text t (text e)
      | None => true
      end)%bool.

(** The elements a selector picks, in document order; a selector outside
    the supported shape picks nothing. *)
Definition query (selector : string) (d : list Element) : list Element :=
  match parse_selector selector with
  | Some c => List.filter (matches c) d
  | None => []
  end.

(** Handles are small numbers handed out by the library. *)
Definition Browser := nat.
Definition Page := nat.

(** Locators are deferred queries: they are resolved against the page each
    time they are used. *)
Inductive Locator :=
| by_role (page : Page) (role name : string)
| by_selector (page : Page) (selector : string)
| first_of (l : Locator).

Definition get_by_role (page : Page) (role name : string) : Locator := by_role page role name.
Definition locator (page : Page) (selector : string) : Locator := by_selector page selector.
Definition first (l : Locator) : Locator := first_of l.

Fixpoint resolve (l : Locator) (d : list Element) : list Element :=
  match l with
  | by_role _ r n =>
      List.filter (fun e => (String.eqb (role e) r && has_text n (name e))%bool) d
  | by_selector _ sel => query sel d
  | first_of l' => List.firstn 1 (resolve l' d)
  end.

(** Locator operations are strict: they need exactly one element. *)
Definition the_element (l : Locator) (s : Snapshot) : option Element :=
  match resolve l (dom s) with
  | [e] => Some e
  | _ => None
  end.

Definition is_visible (l : Locator) (s : Snapshot) : bool :=
  match the_element l s with
  | Some e => visible e
  | None => false
  end.

(** What a click waits for: the element, and, unless forced, that it is
    visible, stable, enabled and not covered. *)
Definition ready (l : Locator) (force : bool) (s : Snapshot) : bool :=
  match the_element l s with
  | Some e => (force || (visible e && steady e))%bool
  | None => false
  end.

(** [wait_for_selector] is not strict: it watches the first match, and by
    default waits for it to be visible. *)
Definition selector_visible (selector : string) (s : Snapshot) : bool :=
  match query selector (dom s) with
  | e :: _ => visible e
  | [] => false
  end.

(* ===================================================================== *)
(** ** The automation library *)
(* ===================================================================== *)

(** What a library call can raise. *)
Inductive exn :=
| TimeoutError     (* a wait or an action ran out of time *)
| AssertionError   (* an [expect] was not met within its time *)
| Error.           (* any other failure: connection refused, target closed,
                      an argument of the wrong kind *)

(** The library calls of the two scripts.  An argument of [None] is a
    keyword argument that the caller leaves out: the library default
    applies.  [c_expect_url] is [expect(page).to_have_url] called, as the
    feature walkthrough calls it, with a function on the URL. *)
Inductive Call :=
| c_launch (headless : option bool)
| c_new_page (b : Browser)
| c_goto (p : Page) (address : string)
| c_wait_for_load_state (p : Page) (state : string)
| c_expect_visible (l : Locator) (timeout : option N)
| c_click (l : Locator) (force : bool)
| c_expect_url (p : Page) (predicate : string -> bool) (timeout : option N)
| c_wait_for_selector (p : Page) (selector : string)
| c_screenshot (p : Page) (path : string) (full_page : option bool)
| c_close (b : Browser)
| c_stop.

Inductive Verdict :=
| passed
| failed (e : exn)
| stuck.            (* the call never returns *)

Record Event := { call : Call; result : Verdict }.

(** How the browser answers a request that does not depend on what the
    page shows. *)
Inductive Answer :=
| answered (after : N)
| silent
| refused.

(** What the outside world does during one call: the states the page goes
    through (each with the delay in milliseconds since the previous one,
    the first counted from the start of the call; the last one stays), and
    the browser's answer. *)
Record Reply := {
  views  : list (N * Snapshot);
  answer : Answer
}.

(** The page as a call sees it first. *)
Definition page_now (r : Reply) : Snapshot :=
  match views r with
  | (_, s) :: _ => s
  | [] => blank
  end.

(** The library defaults, in milliseconds; the scripts never change them.
    A timeout of 0 switches the time limit off. *)
Record Config := {
  default_timeout : N;   (* actions, navigation and waits *)
  expect_timeout  : N;   (* assertions made through [expect] *)
  launch_timeout  : N
}.

Definition playwright_defaults : Config :=
  {| default_timeout := 30000; expect_timeout := 5000; launch_timeout := 180000 |}.

(** The system under test together with the browser: a strategy that
    answers each call knowing everything that happened before. *)
Record Env := {
  sut : list Event -> Call -> Reply;
  cfg : Config
}.

Inductive Image := {
  whole_page : bool;      (* the full scrollable page, or only the viewport *)
  shows      : Snapshot
}.

Record World := {
  clock    : N;                   (* milliseconds spent inside library calls *)
  trace    : list Event;          (* the calls made so far, oldest first *)
  files    : gmap string Image;   (* the file system, by path *)
  browsers : list Browser;        (* browser processes that are running *)
  spawned  : nat                  (* handles given out so far *)
}.

Definition boot (fs : gmap string Image) : World :=
  {| clock := 0; trace := []; files := fs; browsers := []; spawned := 0 |}.

(** *** Waiting *)

Inductive Wait :=
| met (at_ms : N)
| expired (after : N)
| forever.

(** The moment at which the page first satisfies [P]. *)
Fixpoint first_sat (P : Snapshot -> bool) (elapsed : N) (vs : list (N * Snapshot)) : option N :=
  match vs with
  | [] => None
  | (d, s) :: rest =>
      if P s then Some (elapsed + d) else first_sat P (elapsed + d) rest
  end.

Definition within (timeout t : N) : bool := (timeout =? 0) || (t <=? timeout).

Definition await (timeout : N) (P : Snapshot -> bool) (vs : list (N * Snapshot)) : Wait :=
  match first_sat P 0 vs with
  | Some t => if within timeout t then met t else expired timeout
  | None => if timeout =? 0 then forever else expired timeout
  end.

Definition await_answer (timeout : N) (a : Answer) : Wait :=
  match a with
  | answered t => if within timeout t then met t else expired timeout
  | _ => if timeout =? 0 then forever else expired timeout
  end.

Definition conclude (e : exn) (w : Wait) : Verdict * N :=
  match w with
  | met t => (passed, t)
  | expired t => (failed e, t)
  | forever => (stuck, 0)
  end.

Definition or_default {A} (d : A) (given : option A) : A :=
  match given with
  | Some a => a
  | None => d
  end.

Definition load_state_reached (state : string) (s : Snapshot) : bool :=
  if String.eqb state "networkidle" then network_idle s else true.

(** A request that carries no time limit: the call lasts as long as the
    browser takes, and never returns when the browser never answers. *)
Definition unlimited (a : Answer) : Verdict * N :=
  match a with
  | answered t => (passed, t)
  | silent => (stuck, 0)
  | refused => (failed Error, 0)
  end.

(** When the driver is told to stop it closes its browsers, and exits by
    force after this many milliseconds if they have not closed by then. *)
Definition driver_exit_grace : N := 30000.

(** The verdict of a call and the time it takes, from the reply of the
    outside world.

    [new_page] and [close] carry no time limit.  [to_have_url] takes a
    string or a regular expression: handed a function, as the feature
    walkthrough does, the library raises its plain error before it asks
    the browser anything, so neither the page nor the timeout matters.
    The stop of the driver always comes to its end: at the latest when
    the driver gives up on its browsers. *)
Definition respond (c : Call) (k : Config) (r : Reply) : Verdict * N :=
  match c with
  | c_launch _ =>
      match answer r with
      | refused => (failed Error, 0)
      | a => conclude TimeoutError (await_answer (launch_timeout k) a)
      end
  | c_new_page _ => unlimited (answer r)
  | c_goto _ _ =>
      match answer r with
      | refused => (failed Error, 0)
      | a => conclude TimeoutError (await_answer (default_timeout k) a)
      end
  | c_wait_for_load_state _ state =>
      conclude TimeoutError (await (default_timeout k) (load_state_reached state) (views r))
  | c_expect_visible l timeout =>
      conclude AssertionError (await (or_default (expect_timeout k) timeout) (is_visible l) (views r))
  | c_click l force =>
      conclude TimeoutError (await (default_timeout k) (ready l force) (views r))
  | c_expect_url _ _ _ => (failed Error, 0)
  | c_wait_for_selector _ selector =>
      conclude TimeoutError (await (default_timeout k) (selector_visible selector) (views r))
  | c_screenshot _ _ _ =>
      match answer r with
      | refused => (failed Error, 0)
      | a => conclude TimeoutError (await_answer (default_timeout k) a)
      end
  | c_close _ => unlimited (answer r)
  | c_stop =>
      match answer r with
      | answered t => (passed, N.min t driver_exit_grace)
      | silent => (passed, driver_exit_grace)
      | refused => (passed, 0)
      end
  end.

(** What a call that passed leaves behind. *)
Definition effect (c : Call) (r : Reply) (w : World) : World :=
  match c with
  | c_launch _ =>
      {| clock := clock w; trace := trace w; files := files w;
         browsers := spawned w :: browsers w; spawned := S (spawned w) |}
  | c_new_page _ =>
      {| clock := clock w; trace := trace w; files := files w;
         browsers := browsers w; spawned := S (spawned w) |}
  | c_screenshot _ path full =>
      {| clock := clock w; trace := trace w;
         files := <[path := {| whole_page := or_default false full; shows := page_now r |}]>
                    (files w);
         browsers := browsers w; spawned := spawned w |}
  | c_close b =>
      {| clock := clock w; trace := trace w; files := files w;
         browsers := List.filter (fun b' => negb (Nat.eqb b' b)) (browsers w);
         spawned := spawned w |}
  | c_stop =>
      (* stopping the driver takes down every browser it launched *)
      {| clock := clock w; trace := trace w; files := files w;
         browsers := []; spawned := spawned w |}
  | _ => w
  end.

Definition log (c : Call) (v : Verdict) (took : N) (w : World) : World :=
  {| clock := clock w + took; trace := trace w ++ [{| call := c; result := v |}];
     files := files w; browsers := browsers w; spawned := spawned w |}.

(** *** The monad of scripts *)

Inductive Outcome (A : Type) :=
| Returned (a : A)
| Raised (e : exn)
| Hung.
Arguments Returned {A} a.
Arguments Raised {A} e.
Arguments Hung {A}.

Definition M (A : Type) : Type := Env -> World -> Outcome A * World.

#[global] Instance M_ret : MRet M := fun A a _ w => (Returned a, w).

(** Sequencing: an exception or a hang in the first part skips the rest. *)
#[global] Instance M_bind : MBind M := fun A B f m env w =>
  match m env w with
  | (Returned a, w') => f a env w'
  | (Raised e, w') => (Raised e, w')
  | (Hung, w') => (Hung, w')
  end.

Definition gets {A} (f : World -> A) : M A := fun _ w => (Returned (f w), w).

Definition outcome_of (v : Verdict) : Outcome unit :=
  match v with
  | passed => Returned tt
  | failed e => Raised e
  | stuck => Hung
  end.

(** One library call: ask the outside world, judge the reply, apply the
    effect if the call passed, and log the call. *)
Definition perform (c : Call) : M unit :=
  fun env w =>
    let r := sut env (trace w) c in
    let '(v, took) := respond c (cfg env) r in
    let w1 := match v with passed => effect c r w | _ => w end in
    (outcome_of v, log c v took w1).

(** *** The API, as the scripts call it *)

(** The driver object that [sync_playwright()] hands to the block. *)
Inductive Playwright := driver.

(** [playwright.chromium.launch(headless=...)]; headless unless told
    otherwise. *)
Definition launch (playwright : Playwright) (headless : option bool) : M Browser :=
  b ← gets spawned; perform (c_launch headless) ;; mret b.

Definition new_page (browser : Browser) : M Page :=
  p ← gets spawned; perform (c_new_page browser) ;; mret p.

Definition close (browser : Browser) : M unit := perform (c_close browser).

Definition goto (page : Page) (address : string) : M unit := perform (c_goto page address).

Definition wait_for_load_state (page : Page) (state : string) : M unit :=
  perform (c_wait_for_load_state page state).

Definition expect_to_be_visible (l : Locator) (timeout : option N) : M unit :=
  perform (c_expect_visible l timeout).

Definition click (l : Locator) (force : bool) : M unit := perform (c_click l force).

Definition expect_to_have_url (page : Page) (predicate : string -> bool) (timeout : option N) : M unit :=
  perform (c_expect_url page predicate timeout).

Definition wait_for_selector (page : Page) (selector : string) : M unit :=
  perform (c_wait_for_selector page selector).

(** [page.screenshot(path=..., full_page=...)]; [full_page] is [False]
    unless the caller passes it. *)
Definition screenshot (page : Page) (path : string) (full_page : option bool) : M unit :=
  perform (c_screenshot page path full_page).

(** [with sync_playwright() as p: body]: the driver is stopped when the
    block is left, by return or by exception; the exception then goes on.
    A body that never returns never leaves the block. *)
Definition with_sync_playwright {A} (body : Playwright -> M A) : M A :=
  fun env w =>
    match body driver env w with
    | (Hung, w') => (Hung, w')
    | (o, w') => (o, snd (perform c_stop env w'))
    end.

(* ===================================================================== *)
(** ** verify_features.py *)
(* ===================================================================== *)

Definition url_has_tool (address : string) : bool := str_in "/tool/" address.

Definition verification_png : string := "jules-scratch/verification/verification.png".

(** The four locators of [run_verification], under the names of its local
    variables. *)
Definition load_data_button (page : Page) : Locator :=
  get_by_role page "button" "Load Sample Data".
Definition first_tool_card (page : Page) : Locator :=
  first (locator page ".group.relative").
Definition favourite_button (page : Page) : Locator :=
  locator page "button.absolute.top-2.right-2".
Definition reviews_section_heading (page : Page) : Locator :=
  get_by_role page "heading" "Reviews".

Definition run_verification (page : Page) : M unit :=
  (* 1. Navigate to the homepage. *)
  goto page "http://localhost:5173/" ;;
  (* 2. Wait for the page to be fully loaded. *)
  wait_for_load_state page "networkidle" ;;
  (* 3. The "Load Sample Data" button, with a longer timeout. *)
  expect_to_be_visible (load_data_button page) (Some 20000) ;;
  (* Force the click even if the element is not stable. *)
  click (load_data_button page) true ;;
  (* 4. Wait for the first tool card to be visible. *)
  expect_to_be_visible (first_tool_card page) (Some 20000) ;;
  (* 5. Click the first tool card to navigate to the detail page. *)
  click (first_tool_card page) false ;;
  (* 6. Verify that the URL is now the tool detail page. *)
  expect_to_have_url page url_has_tool (Some 10000) ;;
  (* 7. Verify the Favourite button is visible. *)
  expect_to_be_visible (favourite_button page) None ;;
  (* 8. Verify the Reviews section is visible. *)
  expect_to_be_visible (reviews_section_heading page) None ;;
  (* 9. Take a screenshot of the page for visual verification. *)
  screenshot page verification_png None.

Definition main : M unit :=
  with_sync_playwright (fun p =>
    browser ← launch p (Some true);
    page ← new_page browser;
    run_verification page ;;
    close browser).

(* ===================================================================== *)
(** ** verify_layout.py *)
(* ===================================================================== *)

Definition heading_selector : string :=
  "h1:has-text(" ++ dquote ++ "AI Tools Database" ++ dquote ++ ")".

Definition browse_page_fixed_png : string := "jules-scratch/verification/browse-page-fixed.png".

Definition run (playwright : Playwright) : M unit :=
  browser ← launch playwright None;
  page ← new_page browser;
  (* Verify Browse Page *)
  goto page "http://localhost:5174/" ;;
  (* Wait for the heading to be visible before taking a screenshot *)
  wait_for_selector page heading_selector ;;
  screenshot page browse_page_fixed_png None ;;
  close browser.

(** The module-level block of the script. *)
Definition layout_script : M unit :=
  with_sync_playwright (fun playwright => run playwright).

(** The exit status of the Python process: 0 when the script runs to its
    end, 1 when an exception reaches the top level; none while it hangs. *)
Definition exit_status {A} (o : Outcome A) : option Z :=
  match o with
  | Returned _ => Some 0%Z
  | Raised _ => Some 1%Z
  | Hung => None
  end.

(* ===================================================================== *)
(** ** Straight-line scripts *)
(* ===================================================================== *)

Local Open Scope list_scope.

(** A script without branches is a list of calls made one after the
    other. *)
Fixpoint play (cs : list Call) : M unit :=
  match cs with
  | [] => mret tt
  | c :: rest => perform c ;; play rest
  end.

Definition verdict_of (env : Env) (h : list Event) (c : Call) : Verdict :=
  fst (respond c (cfg env) (sut env h c)).

Definition ok (c : Call) : Event := {| call := c; result := passed |}.

(** [runs env h cs evs o]: after the history [h], the straight-line script
    [cs] makes the calls logged in [evs] and ends with [o].  Each call is
    made once, in order, and the first call that does not pass is the
    last. *)
Inductive runs (env : Env) : list Event -> list Call -> list Event -> Outcome unit -> Prop :=
| runs_end h : runs env h [] [] (Returned tt)
| runs_pass h c cs evs o :
    verdict_of env h c = passed ->
    runs env (h ++ [ok c]) cs evs o ->
    runs env h (c :: cs) (ok c :: evs) o
| runs_fail h c cs e :
    verdict_of env h c = failed e ->
    runs env h (c :: cs) [{| call := c; result := failed e |}] (Raised e)
| runs_stuck h c cs :
    verdict_of env h c = stuck ->
    runs env h (c :: cs) [{| call := c; result := stuck |}] Hung.

(** The world after the logged calls, recomputed from the log. *)
Definition redo (env : Env) (ev : Event) (w : World) : World :=
  let r := sut env (trace w) (call ev) in
  let w1 := match result ev with passed => effect (call ev) r w | _ => w end in
  log (call ev) (result ev) (snd (respond (call ev) (cfg env) r)) w1.

Fixpoint replay (env : Env) (evs : list Event) (w : World) : World :=
  match evs with
  | [] => w
  | ev :: rest => replay env rest (redo env ev w)
  end.







(** The time that the call [c] takes when it is made after the history
    [h]. *)
Definition took (env : Env) (h : list Event) (c : Call) : N :=
  snd (respond c (cfg env) (sut env h c)).


(** The condition [P] is not met by the page within [t] milliseconds of
    the reply [r]. *)
Definition never_within (t : N) (P : Snapshot -> bool) (r : Reply) : Prop :=
  forall at_ms, first_sat P 0 (views r) = Some at_ms -> t < at_ms.

(** The handles of a fresh process: the first browser and its first page. *)
Definition the_browser : Browser := 0%nat.
Definition the_page : Page := 1%nat.

(** The nine steps of the feature walkthrough as the specification lists
    them, each with the library calls it stands for. *)
Definition walkthrough_steps (page : Page) : list (list Call) :=
  [ [c_goto page "http://localhost:5173/"];
    [c_wait_for_load_state page "networkidle"];
    [c_expect_visible (load_data_button page) (Some 20000);
     c_click (load_data_button page) true];
    [c_expect_visible (first_tool_card page) (Some 20000)];
    [c_click (first_tool_card page) false];
    [c_expect_url page url_has_tool (Some 10000)];
    [c_expect_visible (favourite_button page) None];
    [c_expect_visible (reviews_section_heading page) None];
    [c_screenshot page verification_png None] ].

(** A browser session around the steps: launch, new page, the steps, close. *)
Definition session (headless : option bool) (body : list Call) : list Call :=
  c_launch headless :: c_new_page the_browser :: body ++ [c_close the_browser].

Definition features_calls : list Call :=
  session (Some true) (concat (walkthrough_steps the_page)).

(** The three steps of the layout walkthrough. *)
Definition layout_steps (page : Page) : list (list Call) :=
  [ [c_goto page "http://localhost:5174/"];
    [c_wait_for_selector page heading_selector];
    [c_screenshot page browse_page_fixed_png None] ].

Definition layout_calls : list Call := session None (concat (layout_steps the_page)).

(** *** Sample worlds *)

Definition element (tg rl nm : string) (cls : list string) (tx : string) : Element :=
  {| tag := tg; role := rl; name := nm; classes := cls; text := tx;
     visible := true; steady := true |}.

(** A detail page on which everything the scripts look for is there. *)
Definition demo_page : Snapshot :=
  {| url := "http://localhost:5173/tool/1";
     dom := [ element "h1" "heading" "AI Tools Database" [] "AI Tools Database";
              element "button" "button" "Load Sample Data" ["btn"] "Load Sample Data";
              element "div" "" "" ["group"; "relative"; "card"] "Tool one";
              element "div" "" "" ["group"; "relative"; "card"] "Tool two";
              element "button" "button" "Favourite" ["absolute"; "top-2"; "right-2"] "";
              element "h2" "heading" "Reviews" [] "Reviews" ];
     network_idle := true |}.

Definition prompt (s : Snapshot) : Reply :=
  {| views := [(100, s)]; answer := answered 100 |}.

(** Every call finds the demo page after 100 ms. *)
Definition demo_env : Env :=
  {| sut := fun _ _ => prompt demo_page; cfg := playwright_defaults |}.

(** The same, with a page that shows nothing at all. *)
Definition empty_env : Env :=
  {| sut := fun _ _ => prompt blank; cfg := playwright_defaults |}.



(** A page whose only heading says more than the text waited for. *)
Definition welcome_page : Snapshot :=
  {| url := "http://localhost:5174/";
     dom := [ element "h1" "heading" "Welcome" [] "Welcome to the AI Tools Database" ];
     network_idle := true |}.

Definition welcome_env : Env :=
  {| sut := fun _ _ => prompt welcome_page; cfg := playwright_defaults |}.

(** A page whose heading is exactly the text waited for. *)
Definition exact_page : Snapshot :=
  {| url := "http://localhost:5174/";
     dom := [ element "h1" "heading" "AI Tools Database" [] "AI Tools Database" ];
     network_idle := true |}.

Definition exact_env : Env :=
  {| sut := fun _ _ => prompt exact_page; cfg := playwright_defaults |}.

(** A string from its bytes. *)
Definition utf8 (bytes : list nat) : string :=
  fold_right (fun b s => String (ascii_of_nat b) s) EmptyString bytes.

(** The no-break space, U+00A0, in UTF-8. *)
Definition nbsp : string := utf8 [194; 160]%nat.

(** A page whose heading has a no-break space in place of the first
    blank. *)
Definition nbsp_page : Snapshot :=
  {| url := "http://localhost:5174/";
     dom := [ element "h1" "heading" "AI Tools Database" []
                ("AI" ++ nbsp ++ "Tools Database")%string ];
     network_idle := true |}.

Definition nbsp_env : Env :=
  {| sut := fun _ _ => prompt nbsp_page; cfg := playwright_defaults |}.

(** A page whose heading is exactly the text waited for and is in the
    document, but is not shown. *)
Definition hidden_heading_page : Snapshot :=
  {| url := "http://localhost:5174/";
     dom := [ {| tag := "h1"; role := "heading"; name := "AI Tools Database"; classes := [];
                 text := "AI Tools Database"; visible := false; steady := true |} ];
     network_idle := true |}.

Definition hidden_heading_env : Env :=
  {| sut := fun _ _ => prompt hidden_heading_page; cfg := playwright_defaults |}.


(** Everything goes well on the page with the exact heading, and then the
    browser never answers the request to close. *)
Definition lingering_env : Env :=
  {| sut := fun _ c =>
              match c with
              | c_close _ => {| views := []; answer := silent |}
              | _ => prompt exact_page
              end;
     cfg := playwright_defaults |}.


(** *** Comparing scripts, leaving the block, files *)

(** Two scripts are the same when they do the same in every world. *)
Definition same {A} (m m' : M A) : Prop := forall env w, m env w = m' env w.

Definition leave {A} (env : Env) (o : Outcome A) (w : World) : World :=
  match o with
  | Hung => w
  | _ => redo env (ok c_stop) w
  end.

(** What leaving the [with] block adds to the log. *)
Definition closing {A} (o : Outcome A) : list Event :=
  match o with
  | Hung => []
  | _ => [ok c_stop]
  end.

(** The path and the [full_page] flag of a screenshot that was taken. *)
Definition shot (ev : Event) : option (string * bool) :=
  match result ev, call ev with
  | passed, c_screenshot _ path full => Some (path, or_default false full)
  | _, _ => None
  end.

(** What [heading_selector] selects: an [h1] whose text contains
    "AI Tools Database", letter case and white-space layout aside. *)
Definition is_database_heading (e : Element) : bool :=
  (String.eqb "h1" (lowercase (tag e)) && has_text "AI Tools Database" (text e))%bool.

(** The browser answers every request, and in time. *)
Definition obliging (env : Env) : Prop :=
  forall h c, exists d,
    answer (sut env h c) = answered d
    /\ within (launch_timeout (cfg env)) d = true
    /\ within (default_timeout (cfg env)) d = true.

(** *** Further notions *)


(** The calls made on the page. *)
Definition is_page_call (c : Call) : bool :=
  match c with
  | c_launch _ | c_new_page _ | c_close _ | c_stop => false
  | _ => true
  end.


(** The application is not reachable: navigation is refused. *)
Definition unreachable_env : Env :=
  {| sut := fun _ c =>
              match c with
              | c_goto _ _ => {| views := []; answer := refused |}
              | _ => prompt blank
              end;
     cfg := playwright_defaults |}.

(** The browser cannot be started. *)
Definition no_browser_env : Env :=
  {| sut := fun _ _ => {| views := []; answer := refused |}; cfg := playwright_defaults |}.

(** The cards are visible but never come to rest. *)
Definition restless_page : Snapshot :=
  {| url := "http://localhost:5173/";
     dom := [ element "button" "button" "Load Sample Data" ["btn"] "Load Sample Data";
              {| tag := "div"; role := ""; name := ""; classes := ["group"; "relative"];
                 text := "Tool one"; visible := true; steady := false |} ];
     network_idle := true |}.

Definition restless_env : Env :=
  {| sut := fun _ _ => prompt restless_page; cfg := playwright_defaults |}.

(** *** Tactics *)

Ltac list_cases H :=
  cbn [In] in H;
  repeat match type of H with
         | _ \/ _ => destruct H as [H | H]
         | False => destruct H
         end.

Ltac expose_calls :=
  cbv [features_calls layout_calls session walkthrough_steps layout_steps concat app
       load_data_button first_tool_card favourite_button reviews_section_heading
       get_by_role locator first the_page the_browser] in *.

Ltac peel Hr l :=
  lazymatch type of Hr with
  | [] = _ => destruct l; discriminate Hr
  | _ :: _ = _ =>
      destruct l as [|? l]; cbn [app] in Hr;
      [ injection Hr as <- <- | injection Hr as <- Hr; peel Hr l ]
  end.

(* ===================================================================== *)
(** ** Examples *)
(* ===================================================================== *)

Example card_selector_parsed :
  parse_selector ".group.relative"
  = Some {| sel_tag := None; sel_classes := ["group"; "relative"]; sel_has_text := None |}.
Proof. reflexivity. Qed.

Example favourite_selector_parsed :
  parse_selector "button.absolute.top-2.right-2"
  = Some {| sel_tag := Some "button"; sel_classes := ["absolute"; "top-2"; "right-2"];
            sel_has_text := None |}.
Proof. reflexivity. Qed.

Example normalise_heading :
  normalise "  AI   Tools Database " = code_points "ai tools database".
Proof. reflexivity. Qed.

Example has_text_is_containment :
  has_text "AI Tools Database" "Welcome to the ai tools  database!" = true
  /\ has_text "AI Tools Database" "AI Tools" = false.
Proof. split; reflexivity. Qed.

(** White space is white space whatever its kind (the no-break space,
    the ideographic space U+3000, a line feed), and the zero-width space
    U+200B does not count at all. *)
Example has_text_ignores_layout :
  has_text "AI Tools Database" ("AI" ++ nbsp ++ "Tools Database") = true
  /\ has_text "AI Tools Database"
       ("ai tools" ++ utf8 [227; 128; 128; 10]%nat ++ "DATABASE") = true
  /\ has_text "AI Tools Database" ("AI To" ++ utf8 [226; 128; 139]%nat ++ "ols Database") = true
  /\ has_text "AI Tools Database" "AIToolsDatabase" = false.
Proof. repeat split; reflexivity. Qed.

Example code_points_decoded :
  code_points ("A" ++ nbsp ++ utf8 [226; 128; 139; 240; 159; 152; 128; 255]%nat)
  = [65; 160; 8203; 128512; 65533].
Proof. reflexivity. Qed.

Example url_has_tool_detail : url_has_tool "http://localhost:5173/tool/42" = true.
Proof. reflexivity. Qed.

Example url_has_tool_list : url_has_tool "http://localhost:5173/tools" = false.
Proof. reflexivity. Qed.

Example demo_page_locators :
  is_visible (load_data_button the_page) demo_page = true
  /\ is_visible (first_tool_card the_page) demo_page = true
  /\ is_visible (favourite_button the_page) demo_page = true
  /\ is_visible (reviews_section_heading the_page) demo_page = true
  /\ is_visible (locator the_page ".group.relative") demo_page = false.
Proof. repeat split; reflexivity. Qed.

(** The feature walkthrough on the demo page, where everything it looks
    for is there and the address is that of a tool: eight calls pass,
    100 ms each, the URL assertion is turned down on the spot, and the
    driver is stopped. *)
Example demo_run :
  fst (main demo_env (boot ∅)) = Raised Error
  /\ map result (trace (snd (main demo_env (boot ∅))))
     = [passed; passed; passed; passed; passed; passed; passed; passed; failed Error; passed]
  /\ clock (snd (main demo_env (boot ∅))) = 900
  /\ files (snd (main demo_env (boot ∅))) = ∅
  /\ browsers (snd (main demo_env (boot ∅))) = [].
Proof. repeat split; reflexivity. Qed.

(** The layout walkthrough on a page without the heading: 100 ms each for
    the launch, the new page and the navigation, then the full 30 s of the
    wait, and 100 ms for the stop of the driver. *)
Example blank_layout_run :
  fst (layout_script empty_env (boot ∅)) = Raised TimeoutError
  /\ map result (trace (snd (layout_script empty_env (boot ∅))))
     = [passed; passed; passed; failed TimeoutError; passed]
  /\ clock (snd (layout_script empty_env (boot ∅))) = 30400
  /\ files (snd (layout_script empty_env (boot ∅))) = ∅.
Proof. repeat split; reflexivity. Qed.

(* ===================================================================== *)
(** ** Lemmas on strings and selectors *)
(* ===================================================================== *)

Lemma append_cons a s t : (String a s ++ t)%string = String a (s ++ t)%string.
Proof. reflexivity. Qed.

Lemma prefix_spec needle : forall hay,
  String.prefix needle hay = true <-> exists rest, hay = (needle ++ rest)%string.
Proof.
  induction needle as [|a needle IH]; intros [|b hay]; cbn.
  - split; [intros _; exists EmptyString; reflexivity | reflexivity].
  - split; [intros _; eexists; reflexivity | reflexivity].
  - split; [discriminate | intros [rest E]; discriminate].
  - destruct (ascii_dec a b) as [<- | Hne].
    + rewrite IH. split; intros [rest E]; exists rest; rewrite append_cons in *;
        [now rewrite E | now injection E].
    + split; [discriminate | intros [rest E]; rewrite append_cons in E; congruence].
Qed.

Lemma str_in_spec needle hay :
  str_in needle hay = true <-> exists a b, hay = (a ++ needle ++ b)%string.
Proof.
  induction hay as [|c hay IH]; cbn [str_in].
  - rewrite orb_false_r, prefix_spec. split.
    + intros [rest E]. exists EmptyString, rest. exact E.
    + intros (a & b & E). destruct a; [exists b; exact E | discriminate].
  - rewrite orb_true_iff, prefix_spec, IH. split.
    + intros [[rest E] | (a & b & E)].
      * exists EmptyString, rest. exact E.
      * exists (String c a), b. rewrite append_cons. now rewrite E.
    + intros (a & b & E). destruct a as [|c' a].
      * left. exists b. exact E.
      * right. rewrite append_cons in E. injection E as <- E. eauto.
Qed.

Lemma starts_with_spec piece : forall l,
  starts_with piece l = true <-> exists rest, l = piece ++ rest.
Proof.
  induction piece as [|a piece IH]; intros [|b l]; cbn [starts_with app].
  - split; [intros _; now exists [] | reflexivity].
  - split; [intros _; eexists; reflexivity | reflexivity].
  - split; [discriminate | intros [rest E]; discriminate].
  - rewrite andb_true_iff, N.eqb_eq, IH. split.
    + intros [-> [rest ->]]. now exists rest.
    + intros [rest E]. injection E as -> ->. eauto.
Qed.

(** The text test is containment of the normalised needle in the
    normalised text. *)
Lemma occurs_spec piece l :
  occurs piece l = true <-> exists a b, l = a ++ piece ++ b.
Proof.
  induction l as [|c l IH]; cbn [occurs].
  - rewrite orb_false_r, starts_with_spec. split.
    + intros [rest E]. now exists [], rest.
    + intros (a & b & E). destruct a; [exists b; exact E | discriminate].
  - rewrite orb_true_iff, starts_with_spec, IH. split.
    + intros [[rest E] | (a & b & E)].
      * now exists [], rest.
      * exists (c :: a), b. cbn [app]. now rewrite E.
    + intros (a & b & E). destruct a as [|c' a].
      * left. exists b. exact E.
      * right. cbn [app] in E. injection E as <- E. eauto.
Qed.

Lemma heading_selector_parsed :
  parse_selector heading_selector
  = Some {| sel_tag := Some "h1"; sel_classes := [];
            sel_has_text := Some "AI Tools Database" |}.
Proof. reflexivity. Qed.

Lemma heading_selector_query d :
  query heading_selector d = List.filter is_database_heading d.
Proof.
  unfold query. rewrite heading_selector_parsed.
  induction d as [|x d IH]; [reflexivity |].
  cbn [List.filter]. rewrite IH.
  replace (matches _ x) with (is_database_heading x); [reflexivity |].
  unfold matches, is_database_heading. cbn [sel_tag sel_classes sel_has_text forallb].
  now rewrite andb_true_r.
Qed.

Lemma first_match_visible (f : Element -> bool) d :
  match List.filter f d with e :: _ => visible e | [] => false end = true
  <-> exists before e after,
        d = before ++ e :: after /\ Forall (fun x => f x = false) before
        /\ f e = true /\ visible e = true.
Proof.
  induction d as [|x d IH]; cbn [List.filter].
  - split; [discriminate | intros ([|? ?] & y & after & E & _); discriminate].
  - destruct (f x) eqn:Fx.
    + split.
      * intros V. exists [], x, d. repeat split; auto.
      * intros (before & e & after & E & Hb & He & Hv).
        destruct before as [|y before]; cbn in E.
        -- now injection E as -> _.
        -- injection E as -> _. apply Forall_cons_1 in Hb as [Hb _]. congruence.
    + rewrite IH. split.
      * intros (before & e & after & -> & Hb & He & Hv).
        exists (x :: before), e, after. repeat split; auto.
      * intros (before & e & after & E & Hb & He & Hv).
        destruct before as [|y before]; cbn in E.
        -- injection E as -> _. congruence.
        -- injection E as -> ->. apply Forall_cons_1 in Hb as [_ Hb].
           exists before, e, after. repeat split; auto.
Qed.

(* ===================================================================== *)
(** ** Lemmas on waiting *)
(* ===================================================================== *)


(** Waits whose time limit is in force. *)
Section Waiting.
Variable timeout : N.
Hypothesis limited : timeout <> 0.

Lemma within_le t : within timeout t = true -> t <= timeout.
Proof.
  unfold within. destruct (N.eqb_spec timeout 0); [contradiction |].
  cbn. apply N.leb_le.
Qed.

Lemma await_cases P vs :
  (exists t, await timeout P vs = met t /\ t <= timeout
             /\ first_sat P 0 vs = Some t)
  \/ (await timeout P vs = expired timeout
      /\ forall t, first_sat P 0 vs = Some t -> timeout < t).
Proof.
  unfold await.
  destruct (first_sat P 0 vs) as [t|].
  - destruct (within timeout t) eqn:W.
    + left. exists t. repeat split; [now apply within_le].
    + right. split; [reflexivity |]. intros t' [= <-].
      unfold within in W. apply orb_false_elim in W as [_ W]. now apply N.leb_gt in W.
  - right. destruct (N.eqb_spec timeout 0); [contradiction |].
    split; [reflexivity | discriminate].
Qed.




(** Such a wait passes exactly when the page meets the condition within
    the limit; otherwise it fails with the exception of its kind. *)
Lemma conclude_await e P vs :
  (fst (conclude e (await timeout P vs)) = passed
   /\ exists t, t <= timeout /\ first_sat P 0 vs = Some t)
  \/ (fst (conclude e (await timeout P vs)) = failed e
      /\ forall t, first_sat P 0 vs = Some t -> timeout < t).
Proof.
  destruct (await_cases P vs) as [(t & -> & Ht & F) | [-> F]]; cbn.
  - left. eauto.
  - right. eauto.
Qed.
End Waiting.

Lemma conclude_await_passed e timeout P vs :
  fst (conclude e (await timeout P vs)) = passed
  <-> exists t, within timeout t = true /\ first_sat P 0 vs = Some t.
Proof.
  unfold await. destruct (first_sat P 0 vs) as [t|].
  - destruct (within timeout t) eqn:W; cbn.
    + split; [intros _; eauto | reflexivity].
    + split; [discriminate | intros (t' & W' & [= <-]); congruence].
  - destruct (timeout =? 0); cbn; (split; [discriminate | intros (t' & _ & [=])]).
Qed.

Lemma conclude_await_verdicts e timeout P vs :
  fst (conclude e (await timeout P vs)) = passed
  \/ fst (conclude e (await timeout P vs)) = failed e
  \/ fst (conclude e (await timeout P vs)) = stuck.
Proof.
  unfold await. destruct (first_sat P 0 vs) as [t|].
  - destruct (within timeout t); cbn; auto.
  - destruct (timeout =? 0); cbn; auto.
Qed.

(* ===================================================================== *)
(** ** Lemmas on the library *)
(* ===================================================================== *)

Arguments respond : simpl never.


Lemma perform_unfold c env w :
  perform c env w =
  (outcome_of (verdict_of env (trace w) c),
   redo env {| call := c; result := verdict_of env (trace w) c |} w).
Proof.
  unfold perform, verdict_of, redo. cbn.
  destruct (respond c (cfg env) (sut env (trace w) c)) as [v took]. reflexivity.
Qed.

Lemma perform_bind {B} c (f : unit -> M B) env w :
  (perform c ≫= f) env w =
  match verdict_of env (trace w) c with
  | passed => f tt env (redo env (ok c) w)
  | failed e => (Raised e, redo env {| call := c; result := failed e |} w)
  | stuck => (Hung, redo env {| call := c; result := stuck |} w)
  end.
Proof.
  unfold mbind, M_bind. rewrite perform_unfold.
  destruct (verdict_of env (trace w) c); reflexivity.
Qed.

Lemma verdict_expect_visible env h l t :
  verdict_of env h (c_expect_visible l (Some t)) =
  fst (conclude AssertionError
         (await t (is_visible l) (views (sut env h (c_expect_visible l (Some t)))))).
Proof. reflexivity. Qed.

(** The URL assertion, handed a function, is turned down whatever the
    page shows. *)
Lemma verdict_expect_url env h p f t :
  verdict_of env h (c_expect_url p f t) = failed Error.
Proof. reflexivity. Qed.

Lemma verdict_wait_for_selector env h p sel :
  verdict_of env h (c_wait_for_selector p sel) =
  fst (conclude TimeoutError
         (await (default_timeout (cfg env)) (selector_visible sel)
            (views (sut env h (c_wait_for_selector p sel))))).
Proof. reflexivity. Qed.

Lemma never_visible_fails env h l t :
  t <> 0 ->
  never_within t (is_visible l) (sut env h (c_expect_visible l (Some t))) ->
  verdict_of env h (c_expect_visible l (Some t)) = failed AssertionError.
Proof.
  intros Ht Hn. rewrite verdict_expect_visible.
  destruct (conclude_await t Ht AssertionError (is_visible l)
              (views (sut env h (c_expect_visible l (Some t)))))
    as [[_ (a & Ha & F)] | [F _]]; [| exact F].
  apply Hn in F. lia.
Qed.

Lemma obliging_passes env h c :
  obliging env ->
  match c with
  | c_launch _ | c_new_page _ | c_goto _ _ | c_screenshot _ _ _ | c_close _ | c_stop =>
      verdict_of env h c = passed
  | _ => True
  end.
Proof.
  intros Ob. destruct (Ob h c) as (d & A & Wl & Wd).
  destruct c; try exact I; unfold verdict_of, respond; rewrite ?A;
    cbn [await_answer unlimited]; rewrite ?Wl, ?Wd; reflexivity.
Qed.

Lemma trace_redo env ev w : trace (redo env ev w) = trace w ++ [ev].
Proof.
  unfold redo, log. cbn. destruct ev as [c v]. cbn.
  destruct v; try reflexivity. destruct c; reflexivity.
Qed.

Lemma trace_replay env evs : forall w, trace (replay env evs w) = trace w ++ evs.
Proof.
  induction evs as [|ev evs IH]; intros w; cbn.
  - now rewrite app_nil_r.
  - rewrite IH, trace_redo, <- app_assoc. reflexivity.
Qed.

Lemma replay_app env evs1 evs2 w :
  replay env (evs1 ++ evs2) w = replay env evs2 (replay env evs1 w).
Proof. revert w. induction evs1 as [|ev evs1 IH]; intros w; cbn; [reflexivity | apply IH]. Qed.

Lemma spawned_redo_launch env headless w :
  spawned (redo env (ok (c_launch headless)) w) = S (spawned w).
Proof. reflexivity. Qed.

Lemma files_redo env ev w :
  files (redo env ev w) =
  match shot ev with
  | Some (path, full) =>
      <[path := {| whole_page := full; shows := page_now (sut env (trace w) (call ev)) |}]>
        (files w)
  | None => files w
  end.
Proof. destruct ev as [c v]. destruct v; [destruct c | |]; reflexivity. Qed.

(** Only screenshots touch the file system, and each only its own path. *)
Lemma files_replay_frame env evs : forall w p,
  (forall ev full, In ev evs -> shot ev <> Some (p, full)) ->
  files (replay env evs w) !! p = files w !! p.
Proof.
  induction evs as [|ev evs IH]; intros w p H; cbn [replay]; [reflexivity |].
  rewrite IH by (intros ev' full Hin; apply H; now right).
  rewrite files_redo. destruct (shot ev) as [[path full]|] eqn:S; [| reflexivity].
  apply lookup_insert_ne. intros ->. eapply H; [left; reflexivity | exact S].
Qed.

Lemma files_replay_untouched env evs : forall w,
  (forall ev, In ev evs -> shot ev = None) -> files (replay env evs w) = files w.
Proof.
  induction evs as [|ev evs IH]; intros w H; cbn [replay]; [reflexivity |].
  rewrite IH by (intros ev' Hin; apply H; now right).
  rewrite files_redo, (H ev) by now left. reflexivity.
Qed.

Lemma shot_call ev path full :
  shot ev = Some (path, full) ->
  exists p given, call ev = c_screenshot p path given /\ or_default false given = full.
Proof.
  destruct ev as [c v]. unfold shot. cbn.
  destruct v; [| discriminate | discriminate]. destruct c; try discriminate.
  intros [= <- <-]. eauto.
Qed.







(** *** Leaving the [with] block *)

(** The stop of the driver comes to its end, whatever the browser does. *)
Lemma verdict_stop env h : verdict_of env h c_stop = passed.
Proof. unfold verdict_of, respond. now destruct (answer _). Qed.

Lemma with_sync_playwright_unfold {A} (body : Playwright -> M A) env w :
  with_sync_playwright body env w =
  (fst (body driver env w), leave env (fst (body driver env w)) (snd (body driver env w))).
Proof.
  unfold with_sync_playwright. destruct (body driver env w) as [[a|e|] w'];
    cbn [fst snd leave];
    try reflexivity; now rewrite perform_unfold, verdict_stop.
Qed.

Lemma browsers_leave {A} env (o : Outcome A) w : o <> Hung -> browsers (leave env o w) = [].
Proof. destruct o; [reflexivity | reflexivity | congruence]. Qed.

Lemma trace_leave_closing {A} env (o : Outcome A) w :
  trace (leave env o w) = trace w ++ closing o.
Proof.
  destruct o; cbn [leave closing]; try apply trace_redo. now rewrite app_nil_r.
Qed.

Lemma files_leave {A} env (o : Outcome A) w : files (leave env o w) = files w.
Proof. destruct o; reflexivity. Qed.


(** *** Laws of sequencing *)

Lemma same_refl {A} (m : M A) : same m m.
Proof. intros env w. reflexivity. Qed.

Lemma same_trans {A} (m1 m2 m3 : M A) : same m1 m2 -> same m2 m3 -> same m1 m3.
Proof. intros H1 H2 env w. now rewrite H1. Qed.

Lemma bind_same {A B} (m m' : M A) (f g : A -> M B) :
  same m m' -> (forall a, same (f a) (g a)) -> same (m ≫= f) (m' ≫= g).
Proof.
  intros Hm Hf env w. unfold mbind, M_bind. rewrite Hm.
  destruct (m' env w) as [[a|e|] w']; [apply Hf | reflexivity | reflexivity].
Qed.

Lemma bind_assoc {A B C} (m : M A) (f : A -> M B) (g : B -> M C) :
  same ((m ≫= f) ≫= g) (m ≫= fun a => f a ≫= g).
Proof.
  intros env w. unfold mbind, M_bind.
  destruct (m env w) as [[a|e|] w']; reflexivity.
Qed.

Lemma bind_ret_tt (m : M unit) : same m (m ;; mret tt).
Proof.
  intros env w. unfold mbind, M_bind, mret, M_ret.
  destruct (m env w) as [[[]|e|] w']; reflexivity.
Qed.

Lemma play_app cs1 cs2 : same (play (cs1 ++ cs2)) (play cs1 ;; play cs2).
Proof.
  induction cs1 as [|c cs1 IH]; cbn [play app].
  - intros env w. reflexivity.
  - eapply same_trans; [| intros env w; symmetry; apply bind_assoc].
    apply bind_same; [apply same_refl | intros _; apply IH].
Qed.

Lemma play_one c : same (perform c) (play [c]).
Proof. apply bind_ret_tt. Qed.

(* ===================================================================== *)
(** ** Lemmas on straight-line runs *)
(* ===================================================================== *)

(** A straight-line script runs as [runs] says, and leaves the world that
    [replay] computes from its log. *)
Lemma play_runs cs : forall env w o w',
  play cs env w = (o, w') ->
  exists evs, runs env (trace w) cs evs o /\ w' = replay env evs w.
Proof.
  induction cs as [|c cs IH]; intros env w o w' H.
  - cbn in H. inversion H; subst. exists []. split; [constructor | reflexivity].
  - cbn in H. unfold mbind, M_bind in H. rewrite perform_unfold in H.
    destruct (verdict_of env (trace w) c) as [|e|] eqn:V; cbn in H.
    + apply IH in H as (evs & R & ->). rewrite trace_redo in R.
      exists (ok c :: evs). split; [now constructor | reflexivity].
    + inversion H; subst. eexists. split; [now constructor | reflexivity].
    + inversion H; subst. eexists. split; [now constructor | reflexivity].
Qed.

Lemma Forall_passed_ok cs : Forall (fun ev => result ev = passed) (map ok cs).
Proof. apply Forall_forall. intros ev Hin. apply list_elem_of_In, in_map_iff in Hin as (c & <- & _). reflexivity. Qed.

Lemma split_unique {A} (l a1 r1 a2 r2 : list A) (x : A) :
  NoDup l -> l = a1 ++ x :: r1 -> l = a2 ++ x :: r2 -> a1 = a2.
Proof.
  intros N. revert a1 a2.
  induction N as [|y l Hy N IH]; intros a1 a2 E1 E2.
  - destruct a1; discriminate.
  - destruct a1 as [|b1 a1], a2 as [|b2 a2]; cbn in E1, E2.
    + reflexivity.
    + injection E1 as -> ->. injection E2 as -> E2. exfalso. apply Hy.
      rewrite E2. apply list_elem_of_In, in_or_app. right. now left.
    + injection E2 as -> ->. injection E1 as -> E1. exfalso. apply Hy.
      rewrite E1. apply list_elem_of_In, in_or_app. right. now left.
    + injection E1 as -> E1. injection E2 as -> E2. f_equal. eapply IH; eauto.
Qed.

(** A call other than the stop of the driver is logged by the script
    itself. *)
Lemma split_closing {A} (o : Outcome A) evs pre ev post :
  evs ++ closing o = pre ++ ev :: post -> call ev <> c_stop ->
  exists post', evs = pre ++ ev :: post'.
Proof.
  intros E Hne. destruct o; cbn [closing] in E.
  1,2: destruct post as [|x post _] using rev_ind;
       [ apply (app_inj_tail evs pre) in E as [_ <-]; now destruct Hne
       | rewrite app_comm_cons, app_assoc in E;
         apply app_inj_tail in E as [-> _]; eauto ].
  rewrite app_nil_r in E. eauto.
Qed.

(** All runs below are runs against one and the same outside world. *)
Section StraightLine.
Variable env : Env.

Lemma runs_returned h cs evs : runs env h cs evs (Returned tt) -> evs = map ok cs.
Proof.
  intros R. remember (Returned tt) as o eqn:Ho.
  induction R; try discriminate; cbn; [reflexivity | f_equal; auto].
Qed.

Lemma runs_prefix h cs evs o :
  runs env h cs evs o -> exists rest, cs = map call evs ++ rest.
Proof.
  induction 1 as [h | h c cs evs o V R [rest ->] | h c cs e V | h c cs V].
  - now exists [].
  - exists rest. reflexivity.
  - now exists cs.
  - now exists cs.
Qed.

Lemma runs_calls_in h cs evs o :
  runs env h cs evs o -> forall ev, In ev evs -> In (call ev) cs.
Proof.
  intros R ev Hev. destruct (runs_prefix _ _ _ _ R) as [rest ->].
  apply in_or_app. left. now apply in_map.
Qed.

(** Either every call passed, or exactly the last logged call did not and
    its verdict is the outcome. *)
Lemma runs_shape h cs evs o :
  runs env h cs evs o ->
  (o = Returned tt /\ evs = map ok cs)
  \/ (exists pre c post v,
        cs = pre ++ c :: post /\ evs = map ok pre ++ [{| call := c; result := v |}]
        /\ v <> passed /\ verdict_of env (h ++ map ok pre) c = v /\ o = outcome_of v).
Proof.
  induction 1 as [h | h c cs evs o V R IH | h c cs e V | h c cs V].
  - left. split; reflexivity.
  - destruct IH as [[-> ->] | (pre & c' & post & v & -> & -> & Hv & Hc & ->)].
    + left. split; reflexivity.
    + right. exists (c :: pre), c', post, v. cbn. rewrite <- app_assoc in Hc. cbn in Hc.
      repeat split; auto.
  - right. exists [], c, cs, (failed e). cbn. rewrite app_nil_r. repeat split; auto; discriminate.
  - right. exists [], c, cs, stuck. cbn. rewrite app_nil_r. repeat split; auto; discriminate.
Qed.

(** Every call that is logged before another one passed. *)
Lemma runs_passed_before h cs evs o :
  runs env h cs evs o ->
  forall pre ev post, evs = pre ++ ev :: post ->
    post <> [] -> result ev = passed /\ verdict_of env (h ++ pre) (call ev) = passed.
Proof.
  induction 1 as [h | h c cs evs o V R IH | h c cs e V | h c cs V]; intros pre ev post E Hpost.
  - destruct pre; discriminate.
  - destruct pre as [|ev' pre]; cbn in E.
    + injection E as <- <-. split; [reflexivity |]. now rewrite app_nil_r.
    + injection E as <- ->. destruct (IH _ _ _ eq_refl Hpost) as [Hr Hv].
      split; [exact Hr |]. rewrite <- app_assoc in Hv. exact Hv.
  - destruct pre as [|? [|? ?]]; cbn in E; try discriminate.
    injection E as <- <-. congruence.
  - destruct pre as [|? [|? ?]]; cbn in E; try discriminate.
    injection E as <- <-. congruence.
Qed.

(** The calls logged before another logged call all passed, and they are
    the calls that come before it in the script. *)
Lemma runs_split h cs evs o :
  runs env h cs evs o ->
  forall pre ev post, evs = pre ++ ev :: post ->
    pre = map ok (map call pre) /\ exists rest, cs = map call pre ++ call ev :: rest.
Proof.
  induction 1 as [h | h c cs evs o V R IH | h c cs e V | h c cs V]; intros pre ev post E.
  - destruct pre; discriminate.
  - destruct pre as [|ev' pre]; cbn in E.
    + injection E as <- <-. split; [reflexivity |]. cbn.
      destruct (runs_prefix _ _ _ _ R) as [rest ->]. eauto.
    + injection E as <- ->. destruct (IH _ _ _ eq_refl) as [Hp [rest ->]].
      split; [cbn; now rewrite <- Hp | cbn; eauto].
  - destruct pre as [|? [|? ?]]; cbn in E; try discriminate.
    injection E as <- <-. split; [reflexivity | cbn; eauto].
  - destruct pre as [|? [|? ?]]; cbn in E; try discriminate.
    injection E as <- <-. split; [reflexivity | cbn; eauto].
Qed.

(** The logged verdict of a call is the library's verdict on the reply
    that the outside world gave after what was logged before. *)
Lemma runs_verdict h cs evs o :
  runs env h cs evs o ->
  forall pre ev post, evs = pre ++ ev :: post ->
    verdict_of env (h ++ pre) (call ev) = result ev.
Proof.
  induction 1 as [h | h c cs evs o V R IH | h c cs e V | h c cs V]; intros pre ev post E.
  - destruct pre; discriminate.
  - destruct pre as [|ev' pre]; cbn in E.
    + injection E as <- <-. now rewrite app_nil_r.
    + injection E as <- ->. specialize (IH _ _ _ eq_refl).
      now rewrite <- app_assoc in IH.
  - destruct pre as [|? [|? ?]]; cbn in E; try discriminate.
    injection E as <- <-. now rewrite app_nil_r.
  - destruct pre as [|? [|? ?]]; cbn in E; try discriminate.
    injection E as <- <-. now rewrite app_nil_r.
Qed.

(** After a call that passed, the next call of the script is made. *)
Lemma runs_next h cs evs o :
  runs env h cs evs o ->
  forall pre ev post c rest,
    evs = pre ++ ev :: post -> result ev = passed ->
    cs = map call pre ++ call ev :: c :: rest ->
    exists v post', post = {| call := c; result := v |} :: post'.
Proof.
  induction 1 as [h | h c cs evs o V R IH | h c cs e V | h c cs V];
    intros pre ev post c' rest E Hr Hcs.
  - destruct pre; discriminate.
  - destruct pre as [|ev' pre]; cbn in E, Hcs.
    + injection E as <- <-. injection Hcs as ->.
      inversion R; subst; eauto.
    + injection E as <- ->. cbn in Hcs. injection Hcs as ->. eapply IH; eauto.
  - destruct pre as [|? [|? ?]]; cbn in E; try discriminate.
    injection E as <- <-. discriminate.
  - destruct pre as [|? [|? ?]]; cbn in E; try discriminate.
    injection E as <- <-. discriminate.
Qed.

(** A call that did not pass is the last one, and decides the outcome. *)
Lemma runs_last h cs evs o :
  runs env h cs evs o ->
  forall pre ev post, evs = pre ++ ev :: post -> result ev <> passed ->
    post = [] /\ o = outcome_of (result ev).
Proof.
  induction 1 as [h | h c cs evs o V R IH | h c cs e V | h c cs V]; intros pre ev post E Hr.
  - destruct pre; discriminate.
  - destruct pre as [|ev' pre]; cbn in E.
    + injection E as <- <-. now destruct Hr.
    + injection E as <- ->. eapply IH; eauto.
  - destruct pre as [|? [|? ?]]; cbn in E; try discriminate.
    injection E as <- <-. split; reflexivity.
  - destruct pre as [|? [|? ?]]; cbn in E; try discriminate.
    injection E as <- <-. split; reflexivity.
Qed.


Lemma runs_exit h cs evs o :
  runs env h cs evs o ->
  (exit_status o = Some 0%Z <-> evs ++ closing o = map ok (cs ++ [c_stop]))
  /\ (exit_status o = Some 0%Z <-> Forall (fun ev => result ev = passed) (evs ++ closing o))
  /\ (forall ev e, In ev (evs ++ closing o) -> result ev = failed e ->
        o = Raised e /\ exit_status o = Some 1%Z).
Proof.
  intros R.
  destruct (runs_shape _ _ _ _ R)
    as [[-> ->] | (pre & c & post & v & -> & -> & Hv & Hc & ->)].
  - cbn [exit_status closing]. rewrite map_app. cbn [map].
    split; [tauto |]. split.
    + split; [intros _ | reflexivity].
      apply Forall_app. split; [apply Forall_passed_ok | repeat constructor].
    + intros ev e Hin Hr. exfalso.
      apply in_app_or in Hin as [Hin | [<- | []]]; [| discriminate].
      apply in_map_iff in Hin as (c & <- & _). discriminate.
  - assert (Hno : exit_status (outcome_of v) <> Some 0%Z)
      by (destruct v; [congruence | discriminate | discriminate]).
    split; [| split].
    + split; [tauto |]. intros E. exfalso.
      rewrite <- !app_assoc, !map_app in E. apply app_inv_head in E.
      cbn in E. injection E as E _. congruence.
    + split; [tauto |]. intros F. exfalso.
      rewrite <- app_assoc in F. apply Forall_app in F as [_ F].
      apply Forall_cons_1 in F as [F _]. cbn in F. congruence.
    + intros ev e Hin Hr.
      rewrite <- app_assoc in Hin. apply in_app_or in Hin as [Hin | Hin].
      * apply in_map_iff in Hin as (c' & <- & _). discriminate.
      * cbn [app] in Hin. destruct Hin as [<- | Hin].
        -- cbn in Hr. rewrite Hr. split; reflexivity.
        -- destruct v; cbn [outcome_of closing] in Hin; [| | destruct Hin].
           ++ congruence.
           ++ destruct Hin as [<- | []]. discriminate.
Qed.

Lemma runs_before cs evs o ahead c behind pre v post :
  runs env [] cs evs o -> NoDup cs ->
  cs = ahead ++ c :: behind ->
  evs ++ closing o = pre ++ {| call := c; result := v |} :: post ->
  c <> c_stop ->
  pre = map ok ahead.
Proof.
  intros R N Hcs E Hne.
  apply split_closing in E as [post' E]; [| exact Hne].
  destruct (runs_split _ _ _ _ R _ _ _ E) as [Hp [rest Hr]]. cbn [call] in Hr.
  rewrite Hp. f_equal.
  exact (split_unique _ _ _ _ _ _ N Hr Hcs).
Qed.

(** A call is logged only if the calls ahead of it in the script got a
    passing verdict. *)
Lemma runs_reached cs evs o a1 x a2 c behind ev :
  runs env [] cs evs o -> NoDup cs ->
  cs = a1 ++ x :: a2 ++ c :: behind ->
  In ev evs -> call ev = c ->
  verdict_of env (map ok a1) x = passed.
Proof.
  intros R N Hcs Hin Hc.
  apply in_split in Hin as (pre & post & E).
  destruct (runs_split _ _ _ _ R _ _ _ E) as [Hp [rest Hr]].
  rewrite Hc in Hr.
  assert (Hpre : map call pre = a1 ++ x :: a2).
  { eapply split_unique; [exact N | exact Hr |].
    rewrite Hcs, <- app_assoc. reflexivity. }
  rewrite Hpre, map_app in Hp. cbn [map] in Hp.
  rewrite Hp in E.
  rewrite <- app_assoc in E. cbn [app] in E.
  exact (runs_verdict _ _ _ _ R _ (ok x) _ E).
Qed.


End StraightLine.

(* ===================================================================== *)
(** ** The scripts are straight-line *)
(* ===================================================================== *)

Lemma run_verification_play page :
  same (run_verification page) (play (concat (walkthrough_steps page))).
Proof.
  unfold run_verification, goto, wait_for_load_state, expect_to_be_visible, click,
    expect_to_have_url, screenshot.
  cbn [walkthrough_steps concat app play].
  repeat (apply bind_same; [apply same_refl | intros _]).
  apply bind_ret_tt.
Qed.

(** A script that launches a browser, opens a page and goes on in a
    straight line is straight-line as a whole; in a fresh process the
    handles are [the_browser] and [the_page]. *)
Lemma session_play playwright headless
    (rest : Browser -> Page -> M unit) (cs : Browser -> Page -> list Call) :
  (forall b p, same (rest b p) (play (cs b p))) ->
  forall env w, spawned w = 0%nat ->
  (browser ← launch playwright headless; page ← new_page browser; rest browser page) env w
  = play (c_launch headless :: c_new_page the_browser :: cs the_browser the_page) env w.
Proof.
  intros Hrest env w Hw. unfold launch, new_page, gets.
  cbn [play].
  rewrite (bind_assoc _ _ _ env w).
  unfold mbind at 1, M_bind at 1. cbn beta iota.
  rewrite (bind_assoc _ _ _ env w), !perform_bind.
  destruct (verdict_of env (trace w) (c_launch headless)); try reflexivity.
  unfold mbind at 1, M_bind at 1, mret at 1, M_ret at 1. cbn beta iota.
  rewrite (bind_assoc _ _ _ env _).
  unfold mbind at 1, M_bind at 1. cbn beta iota.
  rewrite (bind_assoc _ _ _ env _), Hw.
  change (0%nat) with the_browser.
  rewrite !perform_bind.
  destruct (verdict_of env _ (c_new_page the_browser)); try reflexivity.
  unfold mbind at 1, M_bind at 1, mret at 1, M_ret at 1. cbn beta iota.
  rewrite spawned_redo_launch, Hw.
  apply Hrest.
Qed.

Lemma main_body_play playwright env fs :
  (browser ← launch playwright (Some true); page ← new_page browser;
   run_verification page ;; close browser)
    env (boot fs)
  = play features_calls env (boot fs).
Proof.
  apply (session_play playwright (Some true) (fun b p => run_verification p ;; close b)
           (fun b p => concat (walkthrough_steps p) ++ [c_close b])); [| reflexivity].
  intros b p. eapply same_trans; [| intros env' w'; symmetry; apply play_app].
  apply bind_same; [apply run_verification_play | intros _; apply play_one].
Qed.

Lemma run_play playwright env fs :
  run playwright env (boot fs) = play layout_calls env (boot fs).
Proof.
  apply (session_play playwright None
           (fun b p => goto p "http://localhost:5174/" ;;
                       wait_for_selector p heading_selector ;;
                       screenshot p browse_page_fixed_png None ;;
                       close b)
           (fun b p => concat (layout_steps p) ++ [c_close b])); [| reflexivity].
  intros b p. unfold goto, wait_for_selector, screenshot, close.
  cbn [layout_steps concat app play].
  repeat (apply bind_same; [apply same_refl | intros _]).
  apply bind_ret_tt.
Qed.

(** How a run of [main] looks: a straight-line run of [features_calls],
    then the driver is stopped. *)
Lemma main_runs env fs o w :
  main env (boot fs) = (o, w) ->
  exists evs, runs env [] features_calls evs o
              /\ w = leave env o (replay env evs (boot fs)).
Proof.
  unfold main. rewrite with_sync_playwright_unfold, main_body_play.
  destruct (play features_calls env (boot fs)) as [o' w'] eqn:P. cbn [fst snd].
  intros [= <- <-]. apply play_runs in P as (evs & R & ->). eauto.
Qed.

Lemma layout_runs env fs o w :
  layout_script env (boot fs) = (o, w) ->
  exists evs, runs env [] layout_calls evs o
              /\ w = leave env o (replay env evs (boot fs)).
Proof.
  unfold layout_script. rewrite with_sync_playwright_unfold, run_play.
  destruct (play layout_calls env (boot fs)) as [o' w'] eqn:P. cbn [fst snd].
  intros [= <- <-]. apply play_runs in P as (evs & R & ->). eauto.
Qed.

Lemma main_trace env fs o w :
  main env (boot fs) = (o, w) ->
  exists evs, runs env [] features_calls evs o /\ trace w = evs ++ closing o.
Proof.
  intros H. apply main_runs in H as (evs & R & ->). exists evs. split; [exact R |].
  now rewrite trace_leave_closing, trace_replay.
Qed.

Lemma layout_trace env fs o w :
  layout_script env (boot fs) = (o, w) ->
  exists evs, runs env [] layout_calls evs o /\ trace w = evs ++ closing o.
Proof.
  intros H. apply layout_runs in H as (evs & R & ->). exists evs. split; [exact R |].
  now rewrite trace_leave_closing, trace_replay.
Qed.

Lemma features_calls_NoDup : NoDup features_calls.
Proof.
  expose_calls.
  repeat (apply NoDup_cons_2;
          [ rewrite list_elem_of_In; cbn [In]; intuition discriminate |]).
  apply NoDup_nil_2.
Qed.

Lemma layout_calls_NoDup : NoDup layout_calls.
Proof.
  expose_calls.
  repeat (apply NoDup_cons_2;
          [ rewrite list_elem_of_In; cbn [In]; intuition discriminate |]).
  apply NoDup_nil_2.
Qed.

(** The only screenshot of each script. *)
Lemma features_shots ev path full :
  In (call ev) features_calls -> shot ev = Some (path, full) ->
  path = verification_png /\ full = false
  /\ call ev = c_screenshot the_page verification_png None.
Proof.
  intros Hin S. apply shot_call in S as (p & given & S & <-). rewrite S in Hin |- *.
  cbv [features_calls session walkthrough_steps concat app] in Hin.
  list_cases Hin; try discriminate.
  injection Hin as <- <- <-. repeat split.
Qed.

Lemma layout_shots ev path full :
  In (call ev) layout_calls -> shot ev = Some (path, full) ->
  path = browse_page_fixed_png /\ full = false
  /\ call ev = c_screenshot the_page browse_page_fixed_png None.
Proof.
  intros Hin S. apply shot_call in S as (p & given & S & <-). rewrite S in Hin |- *.
  cbv [layout_calls session layout_steps concat app] in Hin.
  list_cases Hin; try discriminate.
  injection Hin as <- <- <-. repeat split.
Qed.



(** In a run of [features_calls], what was logged before the call [c] is
    the passed calls of the script up to [c]. *)
Lemma features_before env evs o ahead c behind pre v post :
  runs env [] features_calls evs o ->
  features_calls = ahead ++ c :: behind ->
  evs ++ closing o = pre ++ {| call := c; result := v |} :: post ->
  c <> c_stop ->
  pre = map ok ahead.
Proof. intros R. exact (runs_before env _ _ _ _ _ _ _ _ _ R features_calls_NoDup). Qed.

(** A script that ends with a screenshot and the closing of the browser
    leaves, when it returns, the picture taken by that screenshot. *)
Lemma returned_screenshot env fs cs before p path full b evs :
  runs env [] cs evs (Returned tt) ->
  cs = before ++ [c_screenshot p path full; c_close b] ->
  trace (leave env (Returned tt) (replay env evs (boot fs)))
  = map ok before ++ [ok (c_screenshot p path full); ok (c_close b); ok c_stop]
  /\ files (leave env (Returned tt) (replay env evs (boot fs))) !! path
     = Some {| whole_page := or_default false full;
               shows := page_now (sut env (map ok before) (c_screenshot p path full)) |}.
Proof.
  intros R ->. apply runs_returned in R. subst evs. split.
  - rewrite trace_leave_closing, trace_replay, map_app, <- !app_assoc. reflexivity.
  - rewrite files_leave, map_app, replay_app. cbn [map replay].
    rewrite files_redo. cbn [shot ok result call].
    rewrite files_redo. cbn [shot ok result call].
    rewrite trace_replay. cbn [boot trace app].
    apply lookup_insert_eq.
Qed.

(* ===================================================================== *)
(** ** More on runs of the two scripts *)
(* ===================================================================== *)


(** A run in which every call of the script is logged as passed has
    returned. *)
Lemma runs_all_passed env h cs o : runs env h cs (map ok cs) o -> o = Returned tt.
Proof.
  intros R.
  destruct (runs_shape _ _ _ _ _ R)
    as [[-> _] | (pre & c & post & v & -> & E & Hv & _ & _)]; [reflexivity | exfalso].
  rewrite map_app in E. apply app_inv_head in E. cbn in E.
  injection E as E _. congruence.
Qed.

(** Either script as a straight-line run. *)
Lemma script_runs env fs cs o w :
  (main env (boot fs) = (o, w) /\ cs = features_calls)
  \/ (layout_script env (boot fs) = (o, w) /\ cs = layout_calls) ->
  NoDup cs
  /\ exists evs, runs env [] cs evs o
                /\ w = leave env o (replay env evs (boot fs))
                /\ trace w = evs ++ closing o.
Proof.
  intros [[H ->] | [H ->]].
  - split; [apply features_calls_NoDup |].
    destruct (main_runs _ _ _ _ H) as (evs & R & Hw). exists evs.
    repeat split; auto. now rewrite Hw, trace_leave_closing, trace_replay.
  - split; [apply layout_calls_NoDup |].
    destruct (layout_runs _ _ _ _ H) as (evs & R & Hw). exists evs.
    repeat split; auto. now rewrite Hw, trace_leave_closing, trace_replay.
Qed.

(** Where a logged call of the script sits in the log. *)
Lemma split_trace {A} (o : Outcome A) evs pre ev post :
  evs ++ closing o = pre ++ ev :: post -> call ev <> c_stop ->
  exists post', evs = pre ++ ev :: post' /\ post = post' ++ closing o.
Proof.
  intros E Hne. destruct (split_closing _ _ _ _ _ E Hne) as [post' E'].
  exists post'. split; [exact E' |].
  rewrite E', <- app_assoc in E. cbn [app] in E.
  apply app_inv_head in E. now injection E.
Qed.

(** If the call [c] is reached (the call before it is logged as passed)
    and does not pass, the run ends with it. *)
Lemma fails_after env cs evs o ahead prev c behind :
  runs env [] cs evs o -> NoDup cs ->
  cs = ahead ++ prev :: c :: behind ->
  In (ok prev) evs ->
  verdict_of env (map ok (ahead ++ [prev])) c <> passed ->
  evs = map ok (ahead ++ [prev])
        ++ [{| call := c; result := verdict_of env (map ok (ahead ++ [prev])) c |}]
  /\ o = outcome_of (verdict_of env (map ok (ahead ++ [prev])) c).
Proof.
  intros R N Hcs Hin Hv.
  apply in_split in Hin as (pre & post & E).
  destruct (runs_split _ _ _ _ _ R _ _ _ E) as [Hp [rest Hr]]. cbn [call ok] in Hr.
  pose proof (split_unique _ _ _ _ _ _ N Hr Hcs) as Hpre.
  assert (Hh : pre ++ [ok prev] = map ok (ahead ++ [prev]))
    by (rewrite map_app, Hp, Hpre; reflexivity).
  destruct (runs_next _ _ _ _ _ R pre (ok prev) post c behind E eq_refl)
    as (v & post' & ->).
  { cbn [call ok]. now rewrite Hpre. }
  assert (E' : evs = (pre ++ [ok prev]) ++ {| call := c; result := v |} :: post')
    by (rewrite <- app_assoc; exact E).
  pose proof (runs_verdict _ _ _ _ _ R _ _ _ E') as V. cbn [call result app] in V.
  rewrite Hh in V, E'. rewrite V in Hv |- *.
  destruct (runs_last _ _ _ _ _ R _ _ _ E' Hv) as [-> Ho].
  split; [exact E' | exact Ho].
Qed.

(** A call of the script that is logged is not the stop of the driver. *)
Lemma logged_in_script {A} (o : Outcome A) evs ev :
  In ev (evs ++ closing o) -> call ev <> c_stop -> In ev evs.
Proof.
  intros Hin Hne. apply in_app_or in Hin as [Hin | Hin]; [exact Hin |].
  destruct o; cbn in Hin; try (destruct Hin as [<- | []]; now destruct Hne).
  destruct Hin.
Qed.

(** *** The browser *)

(** A call that did not pass leaves the browsers as they were. *)
Lemma browsers_redo_failed env ev w :
  result ev <> passed -> browsers (redo env ev w) = browsers w.
Proof. destruct ev as [c v]. destruct v; [now intros [] | reflexivity | reflexivity]. Qed.

(** The closing of the browser is the last call of both scripts. *)
Lemma close_at_end cs :
  cs = features_calls \/ cs = layout_calls ->
  cs = removelast cs ++ [c_close the_browser].
Proof. intros [-> | ->]; reflexivity. Qed.

(** What is logged in a run that did not complete does not include the
    closing of the browser as passed. *)
Lemma close_skipped env cs evs o :
  cs = features_calls \/ cs = layout_calls ->
  runs env [] cs evs o -> o <> Returned tt ->
  ~ In (ok (c_close the_browser)) evs.
Proof.
  intros Hcs R Ho Hin.
  assert (N : NoDup cs)
    by (destruct Hcs as [-> | ->]; [apply features_calls_NoDup | apply layout_calls_NoDup]).
  apply close_at_end in Hcs.
  apply in_split in Hin as (pre & post & E).
  destruct (runs_split _ _ _ _ _ R _ _ _ E) as [Hp [rest Hr]]. cbn [call ok] in Hr.
  pose proof (split_unique _ _ _ _ _ _ N Hr Hcs) as Hpre.
  apply Ho, (runs_all_passed env [] cs).
  assert (post = []) as ->.
  { destruct (runs_prefix _ _ _ _ _ R) as [rest' Hr'].
    rewrite E, map_app, Hpre in Hr'. cbn [map call ok] in Hr'.
    rewrite Hcs in Hr' at 1. rewrite <- !app_assoc in Hr'.
    apply app_inv_head in Hr'. cbn in Hr'. injection Hr' as Hr'.
    destruct post; [reflexivity | discriminate]. }
  rewrite E, Hp, Hpre in R. rewrite Hcs at 2. rewrite map_app. exact R.
Qed.

(** Between the launch and the closing the one browser of the script is
    running: at any point of the log after the launch passed and before
    the closing passed. *)
Lemma browser_runs env fs cs evs o pre post :
  cs = features_calls \/ cs = layout_calls ->
  runs env [] cs evs o ->
  evs = pre ++ post ->
  (exists headless, In (ok (c_launch headless)) pre) ->
  ~ In (ok (c_close the_browser)) pre ->
  browsers (replay env pre (boot fs)) = [the_browser].
Proof.
  intros Hcs R E [headless Hl] Hc.
  destruct post as [|ev post].
  - rewrite app_nil_r in E. subst pre.
    destruct (runs_shape _ _ _ _ _ R)
      as [[-> ->] | (p & c & rest & v & Hp & -> & Hv & _ & _)].
    + exfalso. apply Hc. destruct Hcs as [-> | ->]; cbn; tauto.
    + rewrite replay_app. cbn [replay].
      rewrite browsers_redo_failed by exact Hv.
      assert (Hne : p <> []).
      { intros ->. cbn in Hl. destruct Hl as [Hl | []]. injection Hl as _ Hl. congruence. }
      clear Hl Hc R.
      destruct Hcs as [-> | ->];
        cbv [features_calls layout_calls session walkthrough_steps layout_steps concat app]
          in Hp;
        peel Hp p; try (now destruct Hne); reflexivity.
  - destruct (runs_split _ _ _ _ _ R _ _ _ E) as [Hp [rest Hr]].
    destruct ev as [c v]. cbn [call] in Hr.
    assert (Hne : map call pre <> []).
    { destruct pre; [destruct Hl | discriminate]. }
    rewrite Hp. remember (map call pre) as l eqn:Hl'. clear Hl' Hl Hc R E Hp.
    destruct Hcs as [-> | ->];
      cbv [features_calls layout_calls session walkthrough_steps layout_steps concat app]
        in Hr;
      peel Hr l; try (now destruct Hne); reflexivity.
Qed.

(** *** The feature walkthrough stops at its URL assertion *)

Lemma main_never_returns env fs o w :
  main env (boot fs) = (o, w) -> o <> Returned tt /\ files w = fs.
Proof.
  intros H. destruct (main_runs _ _ _ _ H) as (evs & R & Hw).
  assert (Hstop : forall ev c behind a2,
            In ev evs -> call ev = c ->
            features_calls = firstn 8 features_calls
                             ++ c_expect_url the_page url_has_tool (Some 10000)
                             :: a2 ++ c :: behind -> False).
  { intros ev c behind a2 Hin Hc Hcs.
    pose proof (runs_reached _ _ _ _ _ _ _ _ _ _ R features_calls_NoDup Hcs Hin Hc) as V.
    rewrite verdict_expect_url in V. discriminate. }
  split.
  - intros ->. apply runs_returned in R. subst evs.
    apply (Hstop (ok (c_close the_browser)) (c_close the_browser) []
             (firstn 3 (skipn 9 features_calls))); [| reflexivity | reflexivity].
    cbn. tauto.
  - subst w. rewrite files_leave. apply files_replay_untouched.
    intros ev Hin. destruct (shot ev) as [[path full]|] eqn:S; [exfalso | reflexivity].
    pose proof (runs_calls_in _ _ _ _ _ R ev Hin) as Hcall.
    destruct (features_shots _ _ _ Hcall S) as (_ & _ & Hc).
    apply (Hstop ev _ [c_close the_browser] (firstn 2 (skipn 9 features_calls)) Hin Hc).
    reflexivity.
Qed.

(** Once the first card has been clicked, the URL assertion is made and
    is turned down; the run ends there. *)
Lemma main_stops_at_url env fs o w :
  main env (boot fs) = (o, w) ->
  In (ok (c_click (first_tool_card the_page) false)) (trace w) ->
  o = Raised Error
  /\ trace w = map ok (firstn 8 features_calls)
               ++ [ {| call := c_expect_url the_page url_has_tool (Some 10000);
                       result := failed Error |};
                    ok c_stop ].
Proof.
  intros H Hin. destruct (main_trace _ _ _ _ H) as (evs & R & T).
  rewrite T in Hin |- *. apply logged_in_script in Hin; [| discriminate].
  destruct (fails_after env features_calls evs o (firstn 7 features_calls) _ _
              (skipn 9 features_calls) R features_calls_NoDup eq_refl Hin) as [E Ho].
  { rewrite verdict_expect_url. discriminate. }
  rewrite verdict_expect_url in E, Ho. cbn [outcome_of] in Ho. subst o evs.
  split; reflexivity.
Qed.

(* ===================================================================== *)
(** ** Theorems on the two scripts *)
(* ===================================================================== *)

(** C1: in both scripts the browser is released on every exit path.
    Whenever the process exits, that is whenever the script returns or an
    exception of any step (assertion failure, timeout, other error)
    reaches the top level, the last thing that happened is the stop of
    the driver on leaving the [with] block, and after it no browser is
    running.  The browser that the launch started was running all the
    time in between: at every point of the log after the launch and
    before a passed [browser.close()].  When a step failed the closing
    was not made, so the browser was still running when the block was
    left and it is the stop of the driver that shuts it down. *)
Theorem browser_released env fs cs o w :
  (main env (boot fs) = (o, w) /\ cs = features_calls)
  \/ (layout_script env (boot fs) = (o, w) /\ cs = layout_calls) ->
  o <> Hung ->
  exists evs,
    runs env [] cs evs o
    /\ trace w = evs ++ [ok c_stop]
    /\ w = redo env (ok c_stop) (replay env evs (boot fs))
    /\ (forall pre post, evs = pre ++ post ->
          (exists headless, In (ok (c_launch headless)) pre) ->
          ~ In (ok (c_close the_browser)) pre ->
          browsers (replay env pre (boot fs)) = [the_browser])
    /\ (o <> Returned tt -> ~ In (ok (c_close the_browser)) evs)
    /\ browsers w = [].
Proof.
  intros H Ho.
  assert (Hcs : cs = features_calls \/ cs = layout_calls)
    by (destruct H as [[_ ->] | [_ ->]]; auto).
  destruct (script_runs _ _ _ _ _ H) as (_ & evs & R & Hw & T).
  exists evs. split; [exact R |].
  split; [destruct o; [exact T | exact T | congruence] |].
  split; [destruct o; [exact Hw | exact Hw | congruence] |].
  split; [| split].
  - intros pre post E. exact (browser_runs env fs cs evs o pre post Hcs R E).
  - exact (close_skipped env cs evs o Hcs R).
  - rewrite Hw. now apply browsers_leave.
Qed.

(** The feature walkthrough on a page that shows nothing: the assertion on
    the button fails, [browser.close()] is skipped; the browser runs until
    the driver is stopped, and is gone then. *)
Lemma browser_released_witness :
  fst (main empty_env (boot ∅)) = Raised AssertionError
  /\ exists evs,
       runs empty_env [] features_calls evs (fst (main empty_env (boot ∅)))
       /\ trace (snd (main empty_env (boot ∅))) = evs ++ [ok c_stop]
       /\ snd (main empty_env (boot ∅))
          = redo empty_env (ok c_stop) (replay empty_env evs (boot ∅))
       /\ (forall pre post, evs = pre ++ post ->
             (exists headless, In (ok (c_launch headless)) pre) ->
             ~ In (ok (c_close the_browser)) pre ->
             browsers (replay empty_env pre (boot ∅)) = [the_browser])
       /\ (fst (main empty_env (boot ∅)) <> Returned tt ->
           ~ In (ok (c_close the_browser)) evs)
       /\ browsers (snd (main empty_env (boot ∅))) = [].
Proof.
  split; [vm_compute; reflexivity |].
  apply (browser_released empty_env ∅ features_calls (fst (main empty_env (boot ∅)))).
  - left. split; [apply surjective_pairing | reflexivity].
  - vm_compute. discriminate.
Defined.




(** C3: in the feature walkthrough the button "Load Sample Data" is
    clicked only with [force=True], and only right after the assertion
    that it is visible, made with a limit of 20000 ms, has passed, that
    is after the page did show the button within 20 seconds.  No click on
    it is attempted otherwise.  The forced click skips the actionability
    checks: it needs the element, not that it is visible or steady. *)
Theorem button_clicked_after_visible env fs o w pre force v post :
  main env (boot fs) = (o, w) ->
  trace w = pre ++ {| call := c_click (load_data_button the_page) force; result := v |} :: post ->
  force = true
  /\ pre = map ok (firstn 4 features_calls)
           ++ [ok (c_expect_visible (load_data_button the_page) (Some 20000))]
  /\ (exists t, t <= 20000
        /\ first_sat (is_visible (load_data_button the_page)) 0
             (views (sut env (map ok (firstn 4 features_calls))
                       (c_expect_visible (load_data_button the_page) (Some 20000)))) = Some t)
  /\ (forall s, ready (load_data_button the_page) force s = true <->
                exists e, the_element (load_data_button the_page) s = Some e).
Proof.
  intros H E. destruct (main_trace _ _ _ _ H) as (evs & R & T). rewrite T in E.
  assert (force = true) as ->.
  { destruct (split_closing _ _ _ _ _ E) as [post' E']; [discriminate |].
    pose proof (runs_calls_in _ _ _ _ _ R _
                  (eq_ind_r (fun l => In _ l) (in_elt _ _ _) E')) as Hin.
    cbn [call] in Hin. expose_calls. list_cases Hin; try discriminate.
    now injection Hin as <-. }
  split; [reflexivity |].
  pose proof E as E2.
  eapply (features_before env evs o
            (firstn 5 features_calls) _ (skipn 6 features_calls)) in E2;
    [| exact R | reflexivity | discriminate].
  split; [exact E2 |].
  split; cycle 1.
  { intros s. unfold ready. destruct (the_element (load_data_button the_page) s) as [e|].
    - split; [eauto | reflexivity].
    - split; [discriminate | intros [e [=]]]. }
  destruct (split_closing _ _ _ _ _ E) as [post' E']; [discriminate |].
  subst pre.
  pose proof (runs_verdict _ _ _ _ _ R (map ok (firstn 4 features_calls))
                (ok (c_expect_visible (load_data_button the_page) (Some 20000)))
                ({| call := c_click (load_data_button the_page) true; result := v |} :: post')) as V.
  cbn [app call result ok] in V. rewrite verdict_expect_visible in V.
  specialize (V E').
  destruct (conclude_await 20000 ltac:(discriminate) AssertionError
              (is_visible (load_data_button the_page))
              (views (sut env (map ok (firstn 4 features_calls))
                        (c_expect_visible (load_data_button the_page) (Some 20000)))))
    as [[_ Ht] | [F _]]; [exact Ht | congruence].
Qed.

(** On the demo page the button shows after 100 ms and is then clicked. *)
Lemma button_clicked_after_visible_witness :
  exists t, t <= 20000
    /\ first_sat (is_visible (load_data_button the_page)) 0
         (views (sut demo_env (map ok (firstn 4 features_calls))
                   (c_expect_visible (load_data_button the_page) (Some 20000)))) = Some t.
Proof.
  refine (proj1 (proj2 (proj2 (button_clicked_after_visible demo_env ∅
            (fst (main demo_env (boot ∅))) (snd (main demo_env (boot ∅)))
            (map ok (firstn 5 features_calls)) true passed
            [ ok (c_expect_visible (first_tool_card the_page) (Some 20000));
              ok (c_click (first_tool_card the_page) false);
              {| call := c_expect_url the_page url_has_tool (Some 10000);
                 result := failed Error |};
              ok c_stop ] _ _)))).
  - apply surjective_pairing.
  - reflexivity.
Defined.

(** C4, as the code has it.  The function handed to the URL assertion
    does say "the URL contains /tool/"; but the assertion takes a string
    or a regular expression, and turns a function down at once.  So once
    the first card has been clicked, the next call is the URL assertion,
    and it fails there with the plain error of the library, whatever the
    URL is or comes to be; every earlier call passed, nothing but the
    stop of the driver follows, the run ends with that error and writes
    nothing. *)
Theorem url_assertion_after_click env fs o w :
  main env (boot fs) = (o, w) ->
  In (ok (c_click (first_tool_card the_page) false)) (trace w) ->
  (forall u, url_has_tool u = true <-> exists a b, u = (a ++ "/tool/" ++ b)%string)
  /\ trace w = map ok (firstn 8 features_calls)
               ++ [ {| call := c_expect_url the_page url_has_tool (Some 10000);
                       result := failed Error |};
                    ok c_stop ]
  /\ o = Raised Error
  /\ exit_status o = Some 1%Z
  /\ files w = fs.
Proof.
  intros H Hin. split; [intros u; apply str_in_spec |].
  destruct (main_stops_at_url _ _ _ _ H Hin) as [-> T].
  split; [exact T |]. split; [reflexivity |].
  split; [reflexivity |]. exact (proj2 (main_never_returns _ _ _ _ H)).
Qed.

(** The application does what the walkthrough expects: after the click
    the page is that of a tool, and its URL contains "/tool/" from the
    first moment of the assertion.  The run fails at the URL assertion
    all the same. *)
Lemma url_assertion_after_click_witness :
  first_sat (fun s => url_has_tool (url s)) 0
    (views (sut demo_env (map ok (firstn 8 features_calls))
              (c_expect_url the_page url_has_tool (Some 10000)))) = Some 100
  /\ trace (snd (main demo_env (boot ∅)))
     = map ok (firstn 8 features_calls)
       ++ [ {| call := c_expect_url the_page url_has_tool (Some 10000);
               result := failed Error |};
            ok c_stop ]
  /\ fst (main demo_env (boot ∅)) = Raised Error
  /\ exit_status (fst (main demo_env (boot ∅))) = Some 1%Z
  /\ files (snd (main demo_env (boot ∅))) = ∅.
Proof.
  split; [reflexivity |].
  refine (proj2 (url_assertion_after_click demo_env ∅
            (fst (main demo_env (boot ∅))) (snd (main demo_env (boot ∅))) _ _)).
  - apply surjective_pairing.
  - vm_compute. tauto.
Defined.

(** C5: if the page does not show the button "Load Sample Data" within
    the 20 seconds of the assertion, the feature walkthrough does not
    complete and writes no file at all, so no screenshot; and once the
    script has got to that assertion (the wait for network idle passed),
    the run ends there with the failure of the timed-out assertion. *)
Theorem hidden_button_aborts env fs o w :
  main env (boot fs) = (o, w) ->
  (forall h, never_within 20000 (is_visible (load_data_button the_page))
               (sut env h (c_expect_visible (load_data_button the_page) (Some 20000)))) ->
  o <> Returned tt
  /\ files w = fs
  /\ (In (ok (c_wait_for_load_state the_page "networkidle")) (trace w) ->
      o = Raised AssertionError
      /\ trace w = map ok (firstn 4 features_calls)
                   ++ [ {| call := c_expect_visible (load_data_button the_page) (Some 20000);
                           result := failed AssertionError |};
                        ok c_stop ]).
Proof.
  intros H Hn. destruct (main_runs _ _ _ _ H) as (evs & R & Hw).
  assert (Hfail : forall h, verdict_of env h
                    (c_expect_visible (load_data_button the_page) (Some 20000))
                  = failed AssertionError)
    by (intros h; apply never_visible_fails; [discriminate | apply Hn]).
  assert (Hstop : forall ev c behind a2,
            In ev evs -> call ev = c ->
            features_calls = firstn 4 features_calls
                             ++ c_expect_visible (load_data_button the_page) (Some 20000)
                             :: a2 ++ c :: behind -> False).
  { intros ev c behind a2 Hin Hc Hcs.
    pose proof (runs_reached _ _ _ _ _ _ _ _ _ _ R features_calls_NoDup Hcs Hin Hc) as V.
    rewrite Hfail in V. discriminate. }
  split; [| split].
  - intros ->. apply runs_returned in R. subst evs.
    apply (Hstop (ok (c_close the_browser)) (c_close the_browser) []
             (firstn 7 (skipn 5 features_calls))); [| reflexivity | reflexivity].
    cbn. tauto.
  - subst w. rewrite files_leave. apply files_replay_untouched.
    intros ev Hin. destruct (shot ev) as [[path full]|] eqn:S; [exfalso | reflexivity].
    pose proof (runs_calls_in _ _ _ _ _ R ev Hin) as Hcall.
    destruct (features_shots _ _ _ Hcall S) as (_ & _ & Hc).
    apply (Hstop ev _ [c_close the_browser] (firstn 6 (skipn 5 features_calls)) Hin Hc).
    reflexivity.
  - intros Hin. destruct (main_trace _ _ _ _ H) as (evs' & R' & T).
    rewrite T in Hin |- *. clear Hw.
    apply in_split in Hin as (pre & post & E).
    pose proof E as E2.
    eapply (features_before env evs' o
              (firstn 3 features_calls) _ (skipn 4 features_calls)) in E2;
      [| exact R' | reflexivity | discriminate].
    destruct (split_closing _ _ _ _ _ E) as [post' E']; [discriminate |].
    subst pre.
    destruct (runs_next _ _ _ _ _ R' _ _ _
                (c_expect_visible (load_data_button the_page) (Some 20000))
                (skipn 5 features_calls) E' eq_refl eq_refl) as (v & post'' & ->).
    pose proof (runs_verdict _ _ _ _ _ R'
                  (map ok (firstn 3 features_calls)
                   ++ [ok (c_wait_for_load_state the_page "networkidle")])
                  {| call := c_expect_visible (load_data_button the_page) (Some 20000);
                     result := v |} post'') as V.
    rewrite <- app_assoc in V. specialize (V E'). cbn [call result app] in V.
    rewrite Hfail in V. subst v.
    destruct (runs_last _ _ _ _ _ R'
                (map ok (firstn 3 features_calls)
                 ++ [ok (c_wait_for_load_state the_page "networkidle")])
                {| call := c_expect_visible (load_data_button the_page) (Some 20000);
                   result := failed AssertionError |} post'') as [-> ->].
    { rewrite <- app_assoc. exact E'. }
    { discriminate. }
    split; [reflexivity |]. rewrite E'. reflexivity.
Qed.

(** On the blank page nothing ever shows: the run stops at the assertion
    on the button and the file system stays empty. *)
Lemma hidden_button_aborts_witness :
  fst (main empty_env (boot ∅)) <> Returned tt
  /\ files (snd (main empty_env (boot ∅))) = ∅
  /\ (In (ok (c_wait_for_load_state the_page "networkidle")) (trace (snd (main empty_env (boot ∅)))) ->
      fst (main empty_env (boot ∅)) = Raised AssertionError
      /\ trace (snd (main empty_env (boot ∅)))
         = map ok (firstn 4 features_calls)
           ++ [ {| call := c_expect_visible (load_data_button the_page) (Some 20000);
                   result := failed AssertionError |};
                ok c_stop ]).
Proof.
  apply (hidden_button_aborts empty_env ∅).
  - apply surjective_pairing.
  - intros h t. cbn. discriminate.
Defined.

(** C6 as the code has it: the layout walkthrough waits, before it takes
    its screenshot, until the first [h1] element whose text contains
    "AI Tools Database" is visible, for as long as the default timeout of
    the library allows.  "Contains" is containment of the texts once
    both are normalised: letters in lower case, white space of any kind
    (Unicode spaces included) trimmed and squeezed to single blanks.  A
    heading whose text is exactly "AI Tools Database" is such an
    element.  The wait passes exactly when the page shows such a heading
    in time; being in the document is not enough.  If it does not pass
    it times out (or, with the time limit switched off, never returns)
    and the run ends there.  Without a passed wait no file is written.
    If the page shows the heading in time and the browser answers the
    other requests in time, the script completes and the screenshot file
    is there. *)
Theorem heading_wait env fs o w :
  layout_script env (boot fs) = (o, w) ->
  (forall s, selector_visible heading_selector s = true <->
     exists before e after,
       dom s = before ++ e :: after
       /\ Forall (fun x => is_database_heading x = false) before
       /\ is_database_heading e = true /\ visible e = true)
  /\ (forall e, is_database_heading e = true <->
        lowercase (tag e) = "h1"
        /\ exists a b, normalise (text e) = a ++ normalise "AI Tools Database" ++ b)
  /\ (forall e, lowercase (tag e) = "h1" -> text e = "AI Tools Database" ->
        is_database_heading e = true)
  /\ (In (ok (c_goto the_page "http://localhost:5174/")) (trace w) ->
      exists v rest,
        trace w = map ok (firstn 3 layout_calls)
                  ++ {| call := c_wait_for_selector the_page heading_selector; result := v |}
                  :: rest
        /\ (v = passed <->
            exists t, within (default_timeout (cfg env)) t = true
              /\ first_sat (selector_visible heading_selector) 0
                   (views (sut env (map ok (firstn 3 layout_calls))
                             (c_wait_for_selector the_page heading_selector))) = Some t)
        /\ (v <> passed ->
            (v = failed TimeoutError \/ v = stuck) /\ o = outcome_of v /\ rest = closing o))
  /\ (~ In (ok (c_wait_for_selector the_page heading_selector)) (trace w) -> files w = fs)
  /\ (obliging env ->
      (forall h, exists t, within (default_timeout (cfg env)) t = true
         /\ first_sat (selector_visible heading_selector) 0
              (views (sut env h (c_wait_for_selector the_page heading_selector))) = Some t) ->
      o = Returned tt
      /\ files w !! browse_page_fixed_png
         = Some {| whole_page := false;
                   shows := page_now (sut env (map ok (firstn 4 layout_calls))
                                        (c_screenshot the_page browse_page_fixed_png None)) |}).
Proof.
  intros H.
  destruct (layout_runs _ _ _ _ H) as (evs & R & Hw).
  destruct (layout_trace _ _ _ _ H) as (evs' & R' & T).
  split; [| split; [| split; [| split; [| split]]]].
  - intros s. unfold selector_visible. rewrite heading_selector_query.
    apply first_match_visible.
  - intros e. unfold is_database_heading, has_text.
    rewrite andb_true_iff, String.eqb_eq, occurs_spec.
    split; intros [Ht Hc]; (split; [now symmetry | exact Hc]).
  - intros e Ht He. unfold is_database_heading. rewrite Ht, He. reflexivity.
  - intros Hin. rewrite T in Hin |- *.
    apply in_split in Hin as (pre & post & E).
    pose proof E as E2.
    eapply (runs_before env layout_calls evs' o
              (firstn 2 layout_calls) _ (skipn 3 layout_calls)) in E2;
      [| exact R' | exact layout_calls_NoDup | reflexivity | discriminate].
    destruct (split_closing _ _ _ _ _ E) as [post' E']; [discriminate |].
    subst pre.
    destruct (runs_next _ _ _ _ _ R' _ _ _
                (c_wait_for_selector the_page heading_selector)
                (skipn 4 layout_calls) E' eq_refl eq_refl) as (v & post'' & ->).
    assert (E'' : evs' = map ok (firstn 3 layout_calls)
                         ++ {| call := c_wait_for_selector the_page heading_selector;
                               result := v |} :: post'') by exact E'.
    pose proof (runs_verdict _ _ _ _ _ R' _ _ _ E'') as V.
    cbn [call result app] in V. rewrite verdict_wait_for_selector in V.
    exists v, (post'' ++ closing o). split; [| split].
    + rewrite E'', <- app_assoc. reflexivity.
    + rewrite <- V. apply conclude_await_passed.
    + intros Hv. destruct (runs_last _ _ _ _ _ R' _ _ _ E'' Hv) as [-> Ho].
      cbn [result] in Ho. split; [| split; [exact Ho | reflexivity]].
      rewrite <- V in Hv |- *.
      destruct (conclude_await_verdicts TimeoutError (default_timeout (cfg env))
                  (selector_visible heading_selector)
                  (views (sut env (map ok (firstn 3 layout_calls))
                            (c_wait_for_selector the_page heading_selector))))
        as [P | [F | S]]; [contradiction | now left | now right].
  - intros Hno. rewrite Hw, files_leave. apply files_replay_untouched.
    intros [c v] Hin. destruct (shot _) as [[path full]|] eqn:S; [exfalso | reflexivity].
    pose proof (runs_calls_in _ _ _ _ _ R _ Hin) as Hcall.
    destruct (layout_shots _ _ _ Hcall S) as (_ & _ & Hc). cbn [call] in Hc. subst c.
    apply in_split in Hin as (pre & post & E).
    assert (Hpre : pre = map ok (firstn 4 layout_calls)).
    { eapply (runs_before env layout_calls evs o (firstn 4 layout_calls) _
                (skipn 5 layout_calls) pre v (post ++ closing o));
        [exact R | exact layout_calls_NoDup | reflexivity | | discriminate].
      rewrite E, <- app_assoc. reflexivity. }
    apply Hno. rewrite Hw, trace_leave_closing, trace_replay, E, Hpre.
    cbn. tauto.
  - intros Ob Hshow.
    destruct (runs_shape _ _ _ _ _ R)
      as [[-> ->] | (pre & c & post & v & Hcs & -> & Hv & Hc & ->)].
    + split; [reflexivity |]. rewrite Hw.
      exact (proj2 (returned_screenshot env fs layout_calls (firstn 4 layout_calls)
                      the_page browse_page_fixed_png None the_browser _ R eq_refl)).
    + exfalso. apply Hv. rewrite <- Hc.
      assert (Hin : In c layout_calls) by (rewrite Hcs; apply in_elt).
      pose proof (obliging_passes env ([] ++ map ok pre) c Ob) as Hp.
      expose_calls. list_cases Hin; subst c; try exact Hp.
      rewrite verdict_wait_for_selector. apply conclude_await_passed, Hshow.
Qed.

(** The page whose heading is exactly "AI Tools Database". *)
Lemma heading_wait_witness :
  fst (layout_script exact_env (boot ∅)) = Returned tt
  /\ files (snd (layout_script exact_env (boot ∅))) !! browse_page_fixed_png
     = Some {| whole_page := false;
               shows := page_now (sut exact_env (map ok (firstn 4 layout_calls))
                                    (c_screenshot the_page browse_page_fixed_png None)) |}.
Proof.
  refine (proj2 (proj2 (proj2 (proj2 (proj2 (heading_wait exact_env ∅
            (fst (layout_script exact_env (boot ∅)))
            (snd (layout_script exact_env (boot ∅))) _))))) _ _).
  - apply surjective_pairing.
  - intros h c. exists 100. repeat split.
  - intros h. exists 100. split; reflexivity.
Defined.

(** Pages whose heading is not "AI Tools Database" but contains it, as
    it stands or with a no-break space for a blank: the wait passes, the
    script completes and writes its screenshot.  And a page whose heading
    is exactly "AI Tools Database" and is in the document, but is not
    shown: the wait times out and nothing is written. *)
Lemma heading_text_counterexample :
  (map text (dom welcome_page) = ["Welcome to the AI Tools Database"]
   /\ "Welcome to the AI Tools Database" <> "AI Tools Database"
   /\ (forall h c, sut welcome_env h c = prompt welcome_page)
   /\ fst (layout_script welcome_env (boot ∅)) = Returned tt
   /\ (whole_page <$> files (snd (layout_script welcome_env (boot ∅))) !! browse_page_fixed_png)
      = Some false)
  /\ (map text (dom nbsp_page) = [("AI" ++ nbsp ++ "Tools Database")%string]
      /\ ("AI" ++ nbsp ++ "Tools Database")%string <> "AI Tools Database"
      /\ (forall h c, sut nbsp_env h c = prompt nbsp_page)
      /\ fst (layout_script nbsp_env (boot ∅)) = Returned tt
      /\ (whole_page <$> files (snd (layout_script nbsp_env (boot ∅))) !! browse_page_fixed_png)
         = Some false)
  /\ (map (fun e => (tag e, text e, visible e)) (dom hidden_heading_page)
      = [("h1", "AI Tools Database", false)]
      /\ (forall h c, sut hidden_heading_env h c = prompt hidden_heading_page)
      /\ fst (layout_script hidden_heading_env (boot ∅)) = Raised TimeoutError
      /\ files (snd (layout_script hidden_heading_env (boot ∅))) = ∅).
Proof.
  split; [| split].
  - split; [reflexivity |]. split; [discriminate |]. split; [reflexivity |].
    vm_compute. split; reflexivity.
  - split; [reflexivity |]. split; [discriminate |]. split; [reflexivity |].
    vm_compute. split; reflexivity.
  - split; [reflexivity |]. split; [reflexivity |].
    vm_compute. split; reflexivity.
Qed.



(** C8: for both scripts, the process exits with status 0 exactly when
    every call of the script was made and passed; and whenever a call
    fails, its exception is the outcome of the whole script, nothing
    catches it, and the exit status is 1. *)
Theorem exit_status_reports env fs cs o w :
  (main env (boot fs) = (o, w) /\ cs = features_calls)
  \/ (layout_script env (boot fs) = (o, w) /\ cs = layout_calls) ->
  (exit_status o = Some 0%Z <-> trace w = map ok (cs ++ [c_stop]))
  /\ (exit_status o = Some 0%Z <-> Forall (fun ev => result ev = passed) (trace w))
  /\ (forall ev e, In ev (trace w) -> result ev = failed e ->
        o = Raised e /\ exit_status o = Some 1%Z).
Proof.
  intros [[H ->] | [H ->]].
  - destruct (main_trace _ _ _ _ H) as (evs & R & ->). eapply runs_exit, R.
  - destruct (layout_trace _ _ _ _ H) as (evs & R & ->). eapply runs_exit, R.
Qed.

(** The layout walkthrough on a page without the heading: the wait times
    out, the exception is the outcome, the status is 1. *)
Lemma exit_status_reports_witness :
  fst (layout_script empty_env (boot ∅)) = Raised TimeoutError
  /\ exit_status (fst (layout_script empty_env (boot ∅))) = Some 1%Z.
Proof.
  refine (proj2 (proj2 (exit_status_reports empty_env ∅ layout_calls
            (fst (layout_script empty_env (boot ∅))) (snd (layout_script empty_env (boot ∅))) _))
          {| call := c_wait_for_selector the_page heading_selector;
             result := failed TimeoutError |} TimeoutError _ _).
  - right. split; [apply surjective_pairing | reflexivity].
  - vm_compute. tauto.
  - reflexivity.
Defined.

(** C9: the two scripts write to two different fixed paths, and a run of
    either script leaves every file other than its own screenshot as it
    was; so neither overwrites the artifact of the other. *)
Theorem screenshots_apart env fs o w p :
  (main env (boot fs) = (o, w) /\ p <> verification_png)
  \/ (layout_script env (boot fs) = (o, w) /\ p <> browse_page_fixed_png) ->
  verification_png <> browse_page_fixed_png /\ files w !! p = fs !! p.
Proof.
  intros H. split; [discriminate |].
  destruct H as [[H Hp] | [H Hp]].
  - apply main_runs in H as (evs & R & ->).
    rewrite files_leave, files_replay_frame; [reflexivity |].
    intros ev full Hin S.
    destruct (features_shots ev p full (runs_calls_in _ _ _ _ _ R ev Hin) S) as [? _].
    contradiction.
  - apply layout_runs in H as (evs & R & ->).
    rewrite files_leave, files_replay_frame; [reflexivity |].
    intros ev full Hin S.
    destruct (layout_shots ev p full (runs_calls_in _ _ _ _ _ R ev Hin) S) as [? _].
    contradiction.
Qed.

(** A full run of the feature walkthrough over a file system that holds
    the screenshot of the layout walkthrough: that file is still there. *)
Lemma screenshots_apart_witness :
  verification_png <> browse_page_fixed_png
  /\ files (snd (main demo_env (boot {[ browse_page_fixed_png :=
                                          {| whole_page := false; shows := exact_page |} ]})))
       !! browse_page_fixed_png
     = Some {| whole_page := false; shows := exact_page |}.
Proof.
  pose proof (screenshots_apart demo_env
                {[ browse_page_fixed_png := {| whole_page := false; shows := exact_page |} ]}
                (fst (main demo_env (boot {[ browse_page_fixed_png :=
                                               {| whole_page := false; shows := exact_page |} ]})))
                (snd (main demo_env (boot {[ browse_page_fixed_png :=
                                               {| whole_page := false; shows := exact_page |} ]})))
                browse_page_fixed_png) as H.
  destruct H as [Hne Hf].
  - left. split; [apply surjective_pairing | discriminate].
  - split; [exact Hne |]. rewrite Hf. apply lookup_singleton_eq.
Defined.






(* ===================================================================== *)
(** ** Further properties of the two scripts *)
(* ===================================================================== *)

(** X1: in both scripts [browser.close()] is the last call.  When it is
    made, every other call of the script has passed before it (so the
    screenshot has been taken).  It carries no time limit: its verdict is
    the browser's answer, and it never returns when the browser never
    answers.  Its outcome is the outcome of the script, and nothing comes
    after it but the stop of the driver on leaving the block; not even
    that when the closing never returns. *)
Theorem close_is_last env fs cs o w pre v post :
  (main env (boot fs) = (o, w) /\ cs = features_calls)
  \/ (layout_script env (boot fs) = (o, w) /\ cs = layout_calls) ->
  trace w = pre ++ {| call := c_close the_browser; result := v |} :: post ->
  pre = map ok (removelast cs)
  /\ v = fst (unlimited (answer (sut env pre (c_close the_browser))))
  /\ o = outcome_of v
  /\ post = closing o.
Proof.
  intros H E.
  assert (Hcs : cs = removelast cs ++ [c_close the_browser])
    by (destruct H as [[_ ->] | [_ ->]]; reflexivity).
  destruct (script_runs _ _ _ _ _ H) as (N & evs & R & _ & T).
  rewrite T in E.
  destruct (split_trace _ _ _ _ _ E) as (post' & E' & ->); [discriminate |].
  destruct (runs_split _ _ _ _ _ R _ _ _ E') as [Hp [rest Hr]]. cbn [call] in Hr.
  pose proof (split_unique _ _ _ _ _ _ N Hr Hcs) as Hpre.
  assert (post' = []) as ->.
  { destruct (runs_prefix _ _ _ _ _ R) as [rest' Hr'].
    rewrite E', map_app, Hpre in Hr'. cbn [map call] in Hr'.
    rewrite Hcs in Hr' at 1. rewrite <- !app_assoc in Hr'.
    apply app_inv_head in Hr'. cbn in Hr'. injection Hr' as Hr'.
    destruct post'; [reflexivity | discriminate]. }
  pose proof (runs_verdict _ _ _ _ _ R _ _ _ E') as V. cbn [call result app] in V.
  assert (Ho : o = outcome_of v).
  { destruct v as [|e|].
    - apply (runs_all_passed env [] cs). rewrite E', Hp, Hpre in R.
      rewrite Hcs at 2. rewrite map_app. exact R.
    - apply (runs_last _ _ _ _ _ R _ _ _ E'). discriminate.
    - apply (runs_last _ _ _ _ _ R _ _ _ E'). discriminate. }
  split; [now rewrite Hp, Hpre |].
  split; [now rewrite <- V |]. split; [exact Ho | reflexivity].
Qed.

(** The layout walkthrough goes well, and then the browser never answers
    the request to close: the script is stuck in that call, and the
    driver is not stopped. *)
Lemma close_is_last_witness :
  map ok (firstn 5 layout_calls) = map ok (removelast layout_calls)
  /\ stuck = fst (unlimited (answer (sut lingering_env (map ok (firstn 5 layout_calls))
                                       (c_close the_browser))))
  /\ fst (layout_script lingering_env (boot ∅)) = outcome_of stuck
  /\ [] = closing (fst (layout_script lingering_env (boot ∅))).
Proof.
  apply (close_is_last lingering_env ∅ layout_calls
           (fst (layout_script lingering_env (boot ∅)))
           (snd (layout_script lingering_env (boot ∅)))).
  - right. split; [apply surjective_pairing | reflexivity].
  - reflexivity.
Defined.

(** X2: if the browser cannot be launched (the launch fails, by refusal
    or by timeout), either script aborts at once: the launch is tried
    once, no browser is started, no page is opened, nothing is written,
    and the exception of the launch is the outcome of the script. *)
Theorem failed_launch env fs cs headless e o w :
  (main env (boot fs) = (o, w) /\ cs = features_calls)
  \/ (layout_script env (boot fs) = (o, w) /\ cs = layout_calls) ->
  In {| call := c_launch headless; result := failed e |} (trace w) ->
  o = Raised e
  /\ trace w = [{| call := c_launch headless; result := failed e |}; ok c_stop]
  /\ files w = fs
  /\ browsers w = []
  /\ spawned w = 0%nat.
Proof.
  intros H Hin.
  destruct (script_runs _ _ _ _ _ H) as (N & evs & R & Hw & T).
  rewrite T in Hin. apply in_split in Hin as (pre & post & E).
  destruct (split_trace _ _ _ _ _ E) as (post' & E' & ->); [discriminate |].
  destruct (runs_split _ _ _ _ _ R _ _ _ E') as [Hp [rest Hr]]. cbn [call] in Hr.
  assert (Hhead : exists tl, cs = [] ++ c_launch headless :: tl).
  { assert (Hc : In (c_launch headless) cs) by (rewrite Hr; apply in_elt).
    destruct H as [[_ ->] | [_ ->]]; expose_calls; list_cases Hc; try discriminate;
      injection Hc as <-; eexists; reflexivity. }
  destruct Hhead as [tl Hhead].
  assert (pre = []) as ->.
  { rewrite Hp, (split_unique _ _ _ _ _ _ N Hr Hhead). reflexivity. }
  destruct (runs_last _ _ _ _ _ R _ _ _ E') as [-> ->]; [discriminate |].
  cbn [app] in E'. subst evs. cbn [outcome_of result closing app] in *.
  split; [reflexivity |]. split; [exact T |]. subst w. repeat split.
Qed.

Lemma failed_launch_witness :
  fst (main no_browser_env (boot ∅)) = Raised Error
  /\ trace (snd (main no_browser_env (boot ∅)))
     = [{| call := c_launch (Some true); result := failed Error |}; ok c_stop]
  /\ files (snd (main no_browser_env (boot ∅))) = ∅
  /\ browsers (snd (main no_browser_env (boot ∅))) = []
  /\ spawned (snd (main no_browser_env (boot ∅))) = 0%nat.
Proof.
  apply (failed_launch no_browser_env ∅ features_calls (Some true) Error).
  - left. split; [apply surjective_pairing | reflexivity].
  - vm_compute. tauto.
Defined.

(** X3: if the application is not reachable (the navigation is refused),
    either script fails at its [goto]: the exception is the plain error
    of the navigation, no wait and no assertion is made, no screenshot is
    taken and nothing is written.  The browser, started and with its page
    open, is still running when the block is left, and is gone once the
    driver is stopped. *)
Theorem refused_navigation env fs headless address cs o w :
  (main env (boot fs) = (o, w) /\ cs = features_calls
   /\ headless = Some true /\ address = "http://localhost:5173/")
  \/ (layout_script env (boot fs) = (o, w) /\ cs = layout_calls
      /\ headless = None /\ address = "http://localhost:5174/") ->
  In (ok (c_new_page the_browser)) (trace w) ->
  (forall h, answer (sut env h (c_goto the_page address)) = refused) ->
  o = Raised Error
  /\ trace w = [ ok (c_launch headless); ok (c_new_page the_browser);
                 {| call := c_goto the_page address; result := failed Error |};
                 ok c_stop ]
  /\ files w = fs
  /\ browsers (replay env (removelast (trace w)) (boot fs)) = [the_browser]
  /\ browsers w = [].
Proof.
  intros H Hin Href.
  assert (H' : (main env (boot fs) = (o, w) /\ cs = features_calls)
               \/ (layout_script env (boot fs) = (o, w) /\ cs = layout_calls))
    by (destruct H as [(? & ? & _) | (? & ? & _)]; auto).
  destruct (script_runs _ _ _ _ _ H') as (N & evs & R & Hw & T).
  assert (Hcs : cs = [c_launch headless] ++ c_new_page the_browser
                     :: c_goto the_page address :: skipn 3 cs)
    by (destruct H as [(_ & -> & -> & ->) | (_ & -> & -> & ->)]; reflexivity).
  assert (Hv : forall h, verdict_of env h (c_goto the_page address) = failed Error)
    by (intros h; unfold verdict_of, respond; now rewrite Href).
  rewrite T in Hin. apply logged_in_script in Hin; [| discriminate].
  destruct (fails_after env cs evs o _ _ _ _ R N Hcs Hin) as [E Ho].
  { rewrite Hv. discriminate. }
  rewrite Hv in E, Ho. cbn [outcome_of] in Ho. subst o evs.
  split; [reflexivity |]. split; [exact T |].
  rewrite T. subst w. repeat split.
Qed.

Lemma refused_navigation_witness :
  fst (layout_script unreachable_env (boot ∅)) = Raised Error
  /\ trace (snd (layout_script unreachable_env (boot ∅)))
     = [ ok (c_launch None); ok (c_new_page the_browser);
         {| call := c_goto the_page "http://localhost:5174/"; result := failed Error |};
         ok c_stop ]
  /\ files (snd (layout_script unreachable_env (boot ∅))) = ∅
  /\ browsers (replay unreachable_env
                 (removelast (trace (snd (layout_script unreachable_env (boot ∅))))) (boot ∅))
     = [the_browser]
  /\ browsers (snd (layout_script unreachable_env (boot ∅))) = [].
Proof.
  apply (refused_navigation unreachable_env ∅ None "http://localhost:5174/" layout_calls).
  - right. split; [apply surjective_pairing | repeat split].
  - vm_compute. tauto.
  - intros h. reflexivity.
Defined.

Lemma verdict_click env h l force :
  verdict_of env h (c_click l force) =
  fst (conclude TimeoutError
         (await (default_timeout (cfg env)) (ready l force)
            (views (sut env h (c_click l force))))).
Proof. reflexivity. Qed.

(** X4: the click on the first tool card is not forced, so it waits for
    the card to be actionable.  If the card was seen visible but does not
    become actionable (the one matching element, visible and steady)
    within the default timeout, the feature walkthrough fails at that
    click with a timeout; the URL assertion is not made and nothing is
    written. *)
Theorem restless_card_stops env fs o w :
  main env (boot fs) = (o, w) ->
  In (ok (c_expect_visible (first_tool_card the_page) (Some 20000))) (trace w) ->
  default_timeout (cfg env) <> 0 ->
  (forall h, never_within (default_timeout (cfg env)) (ready (first_tool_card the_page) false)
               (sut env h (c_click (first_tool_card the_page) false))) ->
  o = Raised TimeoutError
  /\ trace w = map ok (firstn 7 features_calls)
               ++ [ {| call := c_click (first_tool_card the_page) false;
                       result := failed TimeoutError |};
                    ok c_stop ]
  /\ files w = fs.
Proof.
  intros H Hin Hd Hn.
  destruct (main_runs _ _ _ _ H) as (evs & R & Hw).
  assert (Hv : forall h, verdict_of env h (c_click (first_tool_card the_page) false)
                         = failed TimeoutError).
  { intros h. rewrite verdict_click.
    destruct (conclude_await _ Hd TimeoutError (ready (first_tool_card the_page) false)
                (views (sut env h (c_click (first_tool_card the_page) false))))
      as [[_ (t & Ht & F)] | [F _]]; [| exact F].
    apply Hn in F. lia. }
  assert (Hin' : In (ok (c_expect_visible (first_tool_card the_page) (Some 20000))) evs).
  { rewrite Hw, trace_leave_closing, trace_replay in Hin. cbn [boot trace app] in Hin.
    apply in_app_or in Hin as [Hin | Hin]; [exact Hin |].
    destruct o; cbn in Hin; intuition discriminate. }
  destruct (fails_after env features_calls evs o (firstn 6 features_calls) _ _
              (skipn 8 features_calls) R features_calls_NoDup eq_refl Hin') as [E Ho].
  { rewrite Hv. discriminate. }
  rewrite Hv in E, Ho. cbn [outcome_of] in Ho. subst o.
  split; [reflexivity |]. subst w. split.
  - rewrite trace_leave_closing, trace_replay, E. reflexivity.
  - rewrite files_leave. apply files_replay_untouched.
    intros ev Hev. rewrite E in Hev.
    cbv [features_calls session walkthrough_steps concat app firstn map] in Hev.
    list_cases Hev; subst ev; reflexivity.
Qed.

Lemma restless_card_stops_witness :
  fst (main restless_env (boot ∅)) = Raised TimeoutError
  /\ trace (snd (main restless_env (boot ∅)))
     = map ok (firstn 7 features_calls)
       ++ [ {| call := c_click (first_tool_card the_page) false;
               result := failed TimeoutError |};
            ok c_stop ]
  /\ files (snd (main restless_env (boot ∅))) = ∅.
Proof.
  apply (restless_card_stops restless_env ∅).
  - apply surjective_pairing.
  - vm_compute. tauto.
  - vm_compute. discriminate.
  - intros h t. cbn. discriminate.
Defined.

(** *** The file system across runs *)







(** *** Which exception *)





(** *** The browser during the page calls *)

(** X9: every call on the page is made while the browser of the script
    is running: after the launch and the opening of the page passed,
    with exactly that one browser alive and exactly two handles given
    out (the browser and its page), and before the browser is closed or
    the driver stopped. *)
Theorem page_calls_while_browser_runs env fs cs o w pre ev post :
  (main env (boot fs) = (o, w) /\ cs = features_calls)
  \/ (layout_script env (boot fs) = (o, w) /\ cs = layout_calls) ->
  trace w = pre ++ ev :: post ->
  is_page_call (call ev) = true ->
  browsers (replay env pre (boot fs)) = [the_browser]
  /\ spawned (replay env pre (boot fs)) = 2%nat
  /\ In (ok (c_new_page the_browser)) pre
  /\ (forall v, ~ In {| call := c_close the_browser; result := v |} pre)
  /\ ~ In (ok c_stop) pre.
Proof.
  intros H E Hpage.
  destruct (script_runs _ _ _ _ _ H) as (_ & evs & R & _ & T).
  rewrite T in E.
  destruct (split_trace _ _ _ _ _ E) as (post' & E' & _).
  { intros Hc. rewrite Hc in Hpage. discriminate. }
  destruct (runs_split _ _ _ _ _ R _ _ _ E') as [Hp [rest Hr]].
  destruct ev as [c v]. cbn [call] in Hr, Hpage.
  remember (map call pre) as l eqn:Hl. clear Hl E E' T R.
  destruct H as [[_ ->] | [_ ->]];
    cbv [features_calls layout_calls session walkthrough_steps layout_steps concat app] in Hr;
    peel Hr l; try discriminate Hpage; subst pre;
    (split; [reflexivity |]; split; [reflexivity |]; split; [cbn; tauto |];
     split; [intros v' Hin | intros Hin]; cbn in Hin; intuition discriminate).
Qed.

Lemma page_calls_while_browser_runs_witness :
  browsers (replay exact_env (map ok (firstn 4 layout_calls)) (boot ∅)) = [the_browser]
  /\ spawned (replay exact_env (map ok (firstn 4 layout_calls)) (boot ∅)) = 2%nat
  /\ In (ok (c_new_page the_browser)) (map ok (firstn 4 layout_calls))
  /\ (forall v, ~ In {| call := c_close the_browser; result := v |}
                     (map ok (firstn 4 layout_calls)))
  /\ ~ In (ok c_stop) (map ok (firstn 4 layout_calls)).
Proof.
  apply (page_calls_while_browser_runs exact_env ∅ layout_calls
           (fst (layout_script exact_env (boot ∅))) (snd (layout_script exact_env (boot ∅)))
           (map ok (firstn 4 layout_calls))
           (ok (c_screenshot the_page browse_page_fixed_png None))
           [ok (c_close the_browser); ok c_stop]).
  - right. split; [apply surjective_pairing | reflexivity].
  - reflexivity.
  - reflexivity.
Defined.

